(** * ProtectTimeshiftBuffer: the livestream timeshift buffer of
      homebridge-unifi-protect (src/protect-timeshift.ts)

    A shallow embedding of the class [ProtectTimeshiftBuffer] and the
    properties of its rolling buffer, its listeners and its accessors.

    - JavaScript numbers are IEEE 754 binary64 values: they are modelled by
      [spec_float] at precision 53 and maximal exponent 1024, with the
      division, multiplication and comparisons of that format.
    - A Node [Buffer] is a list of bytes; [Buffer.concat] is list
      concatenation.
    - The object is a record of its fields; everything outside of it (the
      livestream handles with their listeners and [initSegment], the calls
      made to the livestream manager, the NVR and the log, the events
      the buffer emits to its own subscribers) is the record [World].
    - A method is a function on [State = ProtectTimeshiftBuffer * World].
      What an [async] method awaits is an argument: the result of the awaited
      call and the source events that were delivered while it was suspended.
      One caller drives the lifecycle: calls of the methods do not overlap. *)

From Stdlib Require Import QArith Qabs Qpower.
Close Scope Q_scope.
From Stdlib Require Import ZArith List Bool String Lia SpecFloat.
From Stdlib Require Import Strings.Byte.
Import ListNotations.
Open Scope Z_scope.

(** ** Numbers *)

Module Number.

Definition prec : Z := 53.
Definition emax : Z := 1024.

Definition number : Type := spec_float.

(** The number denoted by an integer literal. *)
Definition of_Z (z : Z) : number := binary_normalize prec emax z 0 false.
Definition of_nat (n : nat) : number := of_Z (Z.of_nat n).

Definition div : number -> number -> number := SFdiv prec emax.
Definition mul : number -> number -> number := SFmul prec emax.

Definition ltb : number -> number -> bool := SFltb.
Definition leb : number -> number -> bool := SFleb.
Definition gtb (x y : number) : bool := SFltb y x.
Definition geb (x y : number) : bool := SFleb y x.
(** [x === y] on numbers. *)
Definition eqb : number -> number -> bool := SFeqb.

(** ToBoolean on a number: false for +0, -0 and NaN. *)
Definition truthy (x : number) : bool :=
  match x with
  | S754_zero _ | S754_nan => false
  | _ => true
  end.

Inductive IntegerOrInfinity : Type :=
| NegInfinity
| Integer (z : Z)
| PosInfinity.

(** ToIntegerOrInfinity: NaN and the zeros give 0, a finite number is
    truncated toward zero. *)
Definition ToIntegerOrInfinity (x : number) : IntegerOrInfinity :=
  match x with
  | S754_nan | S754_zero _ => Integer 0
  | S754_infinity s => if s then NegInfinity else PosInfinity
  | S754_finite s m e => Integer (cond_Zopp s (Z.shiftl (Zpos m) e))
  end.

(** The mantissa of a positive integer below 2^53, shifted to 53 bits. *)
Definition normal_mantissa (p : positive) : positive :=
  match (53 - Zpos (digits2_pos p))%Z with
  | Zpos k => Pos.iter xO p k
  | _ => p
  end.

(** The representation of the integer [p], negated when [sgn] is set. *)
Definition integer (sgn : bool) (p : positive) : number :=
  S754_finite sgn (normal_mantissa p) (Zpos (digits2_pos p) - 53).

End Number.
Import Number.

(** ** Arrays and byte buffers *)

Definition Buffer : Type := list byte.

(** [Buffer.concat(list)]. *)
Definition Buffer_concat (l : list Buffer) : Buffer := List.concat l.

(** [Array.prototype.slice(start)] with no end index. *)
Definition slice {A : Type} (l : list A) (start : number) : list A :=
  let len := Z.of_nat (List.length l) in
  let k := match ToIntegerOrInfinity start with
           | NegInfinity => 0
           | Integer r => if r <? 0 then Z.max (len + r) 0 else Z.min r len
           | PosInfinity => len
           end in
  skipn (Z.to_nat k) l.

(** [Array.prototype.shift()], the removed element dropped. *)
Definition shift {A : Type} (l : list A) : list A := tl l.

(** ** Listeners and event emitters *)

(** A livestream object, by identity. *)
Definition Handle : Type := nat.

(** The functions this class attaches to a livestream. [eventHandlers.segment]
    is one closure, created by the constructor; [eventHandlers.close] is a new
    closure at every call of [configureTimeshiftBuffer], told apart by [id]. *)
Inductive Listener : Type :=
| SegmentHandler
| CloseHandler (id : nat).

Definition Listener_eqb (f g : Listener) : bool :=
  match f, g with
  | SegmentHandler, SegmentHandler => true
  | CloseHandler i, CloseHandler j => Nat.eqb i j
  | _, _ => false
  end.

(** The listeners of one emitter, in the order they were attached. *)
Definition Emitter : Type := list (string * Listener).

Definition is_listener (eventName : string) (f : Listener) (x : string * Listener) : bool :=
  String.eqb (fst x) eventName && Listener_eqb (snd x) f.

(** [emitter.on(eventName, f)]: always adds, also a listener that is there. *)
Definition on (eventName : string) (f : Listener) (e : Emitter) : Emitter :=
  e ++ [(eventName, f)].

Fixpoint remove_first (eventName : string) (f : Listener) (e : Emitter) : Emitter :=
  match e with
  | [] => []
  | x :: e' => if is_listener eventName f x then e' else x :: remove_first eventName f e'
  end.

(** [emitter.off(eventName, f)]: removes at most one instance of [f], the one
    attached last. *)
Definition off (eventName : string) (f : Listener) (e : Emitter) : Emitter :=
  rev (remove_first eventName f (rev e)).

(** The listeners [emitter.emit(eventName, ...)] calls, in order. *)
Definition listeners (eventName : string) (e : Emitter) : list Listener :=
  map snd (filter (fun x => String.eqb (fst x) eventName) e).

(** ** The object and its surroundings *)

Record ProtectTimeshiftBuffer : Type := {
  _buffer : list Buffer;
  _channel : number;
  _isStarted : bool;
  _isTransmitting : bool;
  _lens : option number;
  _segmentLength : number;
  bufferSize : number;
  livestream : option Handle;
  (** [eventHandlers], an object used as a map: its keys in insertion order. *)
  eventHandlers : list (string * Listener)
}.

Record World : Type := {
  (** the listeners attached to each livestream object *)
  emitters : Handle -> Emitter;
  (** [livestream.initSegment] of each livestream object *)
  initSegment : Handle -> option Buffer;
  (** calls of [protectCamera.livestream.start(channel, lens, segmentLength)] *)
  started : list (number * option number * number);
  (** calls of [protectCamera.livestream.stop(channel, lens)] *)
  stopped : list (number * option number);
  (** calls of [nvr.resetNvrConnection()] *)
  resets : nat;
  (** messages passed to [log.error] *)
  errors : list string;
  (** payloads of [this.emit("segment", ...)], oldest first *)
  emitted : list Buffer;
  (** number of close closures created so far *)
  closures : nat
}.

Definition State : Type := (ProtectTimeshiftBuffer * World)%type.

Definition set_buffer (b : list Buffer) (t : ProtectTimeshiftBuffer) :=
  {| _buffer := b; _channel := _channel t; _isStarted := _isStarted t;
     _isTransmitting := _isTransmitting t; _lens := _lens t;
     _segmentLength := _segmentLength t; bufferSize := bufferSize t;
     livestream := livestream t; eventHandlers := eventHandlers t |}.

Definition set_channel (c : number) (t : ProtectTimeshiftBuffer) :=
  {| _buffer := _buffer t; _channel := c; _isStarted := _isStarted t;
     _isTransmitting := _isTransmitting t; _lens := _lens t;
     _segmentLength := _segmentLength t; bufferSize := bufferSize t;
     livestream := livestream t; eventHandlers := eventHandlers t |}.

Definition set_isStarted (b : bool) (t : ProtectTimeshiftBuffer) :=
  {| _buffer := _buffer t; _channel := _channel t; _isStarted := b;
     _isTransmitting := _isTransmitting t; _lens := _lens t;
     _segmentLength := _segmentLength t; bufferSize := bufferSize t;
     livestream := livestream t; eventHandlers := eventHandlers t |}.

Definition set_isTransmitting (b : bool) (t : ProtectTimeshiftBuffer) :=
  {| _buffer := _buffer t; _channel := _channel t; _isStarted := _isStarted t;
     _isTransmitting := b; _lens := _lens t;
     _segmentLength := _segmentLength t; bufferSize := bufferSize t;
     livestream := livestream t; eventHandlers := eventHandlers t |}.

Definition set_lens (l : option number) (t : ProtectTimeshiftBuffer) :=
  {| _buffer := _buffer t; _channel := _channel t; _isStarted := _isStarted t;
     _isTransmitting := _isTransmitting t; _lens := l;
     _segmentLength := _segmentLength t; bufferSize := bufferSize t;
     livestream := livestream t; eventHandlers := eventHandlers t |}.

Definition set_segmentLength (n : number) (t : ProtectTimeshiftBuffer) :=
  {| _buffer := _buffer t; _channel := _channel t; _isStarted := _isStarted t;
     _isTransmitting := _isTransmitting t; _lens := _lens t;
     _segmentLength := n; bufferSize := bufferSize t;
     livestream := livestream t; eventHandlers := eventHandlers t |}.

Definition set_bufferSize (n : number) (t : ProtectTimeshiftBuffer) :=
  {| _buffer := _buffer t; _channel := _channel t; _isStarted := _isStarted t;
     _isTransmitting := _isTransmitting t; _lens := _lens t;
     _segmentLength := _segmentLength t; bufferSize := n;
     livestream := livestream t; eventHandlers := eventHandlers t |}.

Definition set_livestream (h : option Handle) (t : ProtectTimeshiftBuffer) :=
  {| _buffer := _buffer t; _channel := _channel t; _isStarted := _isStarted t;
     _isTransmitting := _isTransmitting t; _lens := _lens t;
     _segmentLength := _segmentLength t; bufferSize := bufferSize t;
     livestream := h; eventHandlers := eventHandlers t |}.

Definition set_eventHandlers (hs : list (string * Listener)) (t : ProtectTimeshiftBuffer) :=
  {| _buffer := _buffer t; _channel := _channel t; _isStarted := _isStarted t;
     _isTransmitting := _isTransmitting t; _lens := _lens t;
     _segmentLength := _segmentLength t; bufferSize := bufferSize t;
     livestream := livestream t; eventHandlers := hs |}.

Definition set_emitters (f : Handle -> Emitter) (w : World) :=
  {| emitters := f; initSegment := initSegment w; started := started w;
     stopped := stopped w; resets := resets w; errors := errors w;
     emitted := emitted w; closures := closures w |}.

Definition set_initSegment (f : Handle -> option Buffer) (w : World) :=
  {| emitters := emitters w; initSegment := f; started := started w;
     stopped := stopped w; resets := resets w; errors := errors w;
     emitted := emitted w; closures := closures w |}.

Definition set_started (l : list (number * option number * number)) (w : World) :=
  {| emitters := emitters w; initSegment := initSegment w; started := l;
     stopped := stopped w; resets := resets w; errors := errors w;
     emitted := emitted w; closures := closures w |}.

Definition set_stopped (l : list (number * option number)) (w : World) :=
  {| emitters := emitters w; initSegment := initSegment w; started := started w;
     stopped := l; resets := resets w; errors := errors w;
     emitted := emitted w; closures := closures w |}.

Definition set_resets (n : nat) (w : World) :=
  {| emitters := emitters w; initSegment := initSegment w; started := started w;
     stopped := stopped w; resets := n; errors := errors w;
     emitted := emitted w; closures := closures w |}.

Definition set_errors (l : list string) (w : World) :=
  {| emitters := emitters w; initSegment := initSegment w; started := started w;
     stopped := stopped w; resets := resets w; errors := l;
     emitted := emitted w; closures := closures w |}.

Definition set_emitted (l : list Buffer) (w : World) :=
  {| emitters := emitters w; initSegment := initSegment w; started := started w;
     stopped := stopped w; resets := resets w; errors := errors w;
     emitted := l; closures := closures w |}.

Definition set_closures (n : nat) (w : World) :=
  {| emitters := emitters w; initSegment := initSegment w; started := started w;
     stopped := stopped w; resets := resets w; errors := errors w;
     emitted := emitted w; closures := n |}.

(** The emitter of one handle replaced. *)
Definition update {A : Type} (f : Handle -> A) (h : Handle) (v : A) : Handle -> A :=
  fun h' => if Nat.eqb h' h then v else f h'.

(** [eventHandlers[key] = f]: an existing key keeps its place, a new one goes
    last. *)
Fixpoint assign (key : string) (f : Listener) (hs : list (string * Listener)) :=
  match hs with
  | [] => [(key, f)]
  | (k, g) :: hs' => if String.eqb k key then (k, f) :: hs' else (k, g) :: assign key f hs'
  end.

(** ** The methods *)

(** What the livestream source does between two turns of the event loop. *)
Inductive SourceEvent : Type :=
| Segment (h : Handle) (segment : Buffer)     (* [h] emits "segment" *)
| Close (h : Handle)                          (* [h] emits "close" *)
| InitSegment (h : Handle) (init : option Buffer). (* [h.initSegment] changes *)

(** [transmit()] *)
Definition transmit (st : State) : State :=
  let '(t, w) := st in
  let w := set_emitted (emitted w ++ [Buffer_concat (_buffer t)]) w in
  (set_buffer [] t, w).

(** [eventHandlers.segment], the listener of "segment". *)
Definition segment_handler (segment : Buffer) (st : State) : State :=
  let '(t, w) := st in
  let t := set_buffer (_buffer t ++ [segment]) t in
  let t := if leb (bufferSize t) (of_Z 0) then set_bufferSize (of_Z 1) t else t in
  let t := if negb (_isTransmitting t) && gtb (of_nat (List.length (_buffer t))) (bufferSize t)
           then set_buffer (shift (_buffer t)) t else t in
  if _isTransmitting t then transmit (t, w) else (t, w).

(** [stop()] *)
Definition stop (st : State) : State * bool :=
  let '(t, w) := st in
  let w :=
    if _isStarted t then
      let w := set_stopped (stopped w ++ [(_channel t, _lens t)]) w in
      match livestream t with
      | Some h =>
          set_emitters
            (update (emitters w) h
               (fold_left (fun e kf => off (fst kf) (snd kf) e) (eventHandlers t) (emitters w h)))
            w
      | None => w
      end
    else w in
  let t := set_buffer [] t in
  let t := set_isStarted false t in
  ((t, w), true).

Definition close_message : string :=
  "The livestream API connection was unexpectedly closed by the Protect controller: this is typically due to device restarts or issues with Protect controller firmware versions, and can be safely ignored. Will retry again shortly.".

(** [eventHandlers.close], the listener of "close". *)
Definition close_handler (st : State) : State :=
  let '(t, w) := st in
  let w := set_errors (errors w ++ [close_message]) w in
  fst (stop (t, w)).

(** One listener called with the payload of the event; "close" has none. *)
Definition call (payload : option Buffer) (st : State) (f : Listener) : State :=
  match f, payload with
  | SegmentHandler, Some segment => segment_handler segment st
  | SegmentHandler, None => st
  | CloseHandler _, _ => close_handler st
  end.

(** One event of the source: the listeners attached when it is emitted are
    called in order. *)
Definition dispatch (st : State) (ev : SourceEvent) : State :=
  match ev with
  | Segment h segment =>
      fold_left (call (Some segment)) (listeners "segment" (emitters (snd st) h)) st
  | Close h =>
      fold_left (call None) (listeners "close" (emitters (snd st) h)) st
  | InitSegment h init =>
      (fst st, set_initSegment (update (initSegment (snd st)) h init) (snd st))
  end.

Definition deliver (evs : list SourceEvent) (st : State) : State :=
  fold_left dispatch evs st.

(** [configureTimeshiftBuffer()]. With no livestream, [livestream?.on(...)]
    does not evaluate its arguments: no closure is created and
    [eventHandlers.close] is not assigned. [eventHandlers.segment] is looked
    up; the constructor set it and nothing removes it. *)
Definition configureTimeshiftBuffer (st : State) : State :=
  let '(t, w) := st in
  match livestream t with
  | Some h =>
      let f := CloseHandler (closures w) in
      let w := set_closures (S (closures w)) w in
      let t := set_eventHandlers (assign "close" f (eventHandlers t)) t in
      let w := set_emitters (update (emitters w) h (on "close" f (emitters w h))) w in
      match find (fun kf => String.eqb (fst kf) "segment") (eventHandlers t) with
      | Some kf =>
          (t, set_emitters (update (emitters w) h (on "segment" (snd kf) (emitters w h))) w)
      | None => (t, w)
      end
  | None => (t, w)
  end.

(** What [start] gets from outside. *)
Record StartEnv : Type := {
  (** [protectCamera.stream.hksv?.recordingConfiguration?.mediaContainerConfiguration.fragmentLength] *)
  fragmentLength : option number;
  (** the result of [protectCamera.livestream.acquire(channelId, lens)] *)
  acquired : option Handle;
  (** the events delivered while [protectCamera.livestream.start] is awaited *)
  while_starting : list SourceEvent;
  (** the result of [protectCamera.livestream.start(channelId, lens, segmentLength)] *)
  start_result : bool
}.

(** What [getInitSegment] gets from outside: the events delivered during
    [sleep(2000)]. *)
Definition WaitEnv : Type := list SourceEvent.

(** [livestream?.initSegment] *)
Definition livestream_initSegment (st : State) : option Buffer :=
  match livestream (fst st) with
  | Some h => initSegment (snd st) h
  | None => None
  end.

(** [isInitSegment(segment)] *)
Definition isInitSegment (segment : Buffer) (st : State) : bool :=
  match livestream_initSegment st with
  | Some init => if list_eq_dec Byte.byte_eq_dec init segment then true else false
  | None => false
  end.

(** [getInitSegment()] *)
Definition getInitSegment (env : WaitEnv) (st : State) : State * option Buffer :=
  match livestream_initSegment st with
  | Some init => (st, Some init)
  | None =>
      let st := deliver env st in
      (st, livestream_initSegment st)
  end.

(** [get buffer()] *)
Definition buffer (st : State) : option Buffer :=
  match livestream_initSegment st with
  | Some init =>
      if Nat.eqb (List.length (_buffer (fst st))) 0 then None
      else Some (Buffer_concat (init :: _buffer (fst st)))
  | None => None
  end.

(** [getLast(duration)] *)
Definition getLast (duration : number) (st : State) : option Buffer :=
  let start := div duration (_segmentLength (fst st)) in
  if geb start (of_nat (List.length (_buffer (fst st)))) then buffer st
  else
    match livestream_initSegment st with
    | Some init =>
        if Nat.eqb (List.length (_buffer (fst st))) 0 then None
        else Some (Buffer_concat (init :: slice (_buffer (fst st)) start))
    | None => None
    end.

(** [get length()] *)
Definition get_length (t : ProtectTimeshiftBuffer) : number :=
  mul (bufferSize t) (_segmentLength t).

(** [set length(bufferMillis)] *)
Definition set_length (bufferMillis : number) (t : ProtectTimeshiftBuffer) : ProtectTimeshiftBuffer :=
  set_bufferSize (div bufferMillis (_segmentLength t)) t.

(** [transmitStop()] *)
Definition transmitStop (st : State) : State * bool :=
  ((set_isTransmitting false (fst st), snd st), true).

Definition start_failed_message : string :=
  "Unable to access the Protect livestream API: this is typically due to the Protect controller or camera rebooting. Will retry again.".

Definition no_init_message : string :=
  "Unable to begin transmitting the stream to HomeKit Secure Video: unable to retrieve initialization data from the UniFi Protect controller. This error is typically due to either an issue connecting to the Protect controller, or a problem on the Protect controller.".

Section Settings.

(** The constant of settings.ts, a file that is not part of this
    development: the segment resolution, in milliseconds. *)
Variable PROTECT_HKSV_SEGMENT_RESOLUTION : number.

(** [constructor(protectCamera)]; [lens0] is the id of the first lens of a
    package camera, and undefined for any other camera. *)
Definition new (lens0 : option number) : ProtectTimeshiftBuffer :=
  {| _buffer := [];
     _channel := of_Z 0;
     _isStarted := false;
     _isTransmitting := false;
     _lens := lens0;
     _segmentLength := PROTECT_HKSV_SEGMENT_RESOLUTION;
     bufferSize := of_Z 1;
     livestream := None;
     eventHandlers := [("segment"%string, SegmentHandler)] |}.

(** [start(channelId = this._channel, lens = this._lens)]; an argument that
    is left out or undefined is [None]. *)
Definition start (channelId lens : option number) (env : StartEnv) (st : State)
  : State * bool :=
  let '(t, w) := st in
  let channelId := match channelId with Some c => c | None => _channel t end in
  let lens := match lens with Some l => Some l | None => _lens t end in
  let channelId := match lens with Some _ => of_Z 0 | None => channelId end in
  let '(t, w) := if _isStarted t then fst (stop (t, w)) else (t, w) in
  let t :=
    match fragmentLength env with
    | Some fl =>
        if truthy fl then
          if ltb (_segmentLength t) (of_Z 100) || gtb (_segmentLength t) (of_Z 1500)
             || gtb (_segmentLength t) (div fl (of_Z 2))
          then set_segmentLength PROTECT_HKSV_SEGMENT_RESOLUTION t
          else t
        else t
    | None => t
    end in
  let t := set_buffer [] t in
  let t := set_livestream (acquired env) t in
  match acquired env with
  | None => ((t, w), false)
  | Some _ =>
      let '(t, w) := configureTimeshiftBuffer (t, w) in
      let w := set_started (started w ++ [(channelId, lens, _segmentLength t)]) w in
      let '(t, w) := deliver (while_starting env) (t, w) in
      if start_result env then
        let t := set_channel channelId t in
        let t := set_lens lens t in
        let t := set_isStarted true t in
        ((t, w), true)
      else ((t, w), false)
  end.

(** [nvr.resetNvrConnection()], awaited. *)
Definition resetNvrConnection (st : State) : State :=
  (fst st, set_resets (S (resets (snd st))) (snd st)).

Definition log_error (msg : string) (st : State) : State :=
  (fst st, set_errors (errors (snd st) ++ [msg]) (snd st)).

(** [transmitStart()]; [senv] is used when the buffer is not started, [wenv]
    when the initialization segment is not there at once. *)
Definition transmitStart (senv : StartEnv) (wenv : WaitEnv) (st : State) : State * bool :=
  let '(st, ok) := if _isStarted (fst st) then (st, true) else start None None senv st in
  if negb ok then
    let st := log_error start_failed_message st in
    let st := resetNvrConnection st in
    (st, false)
  else
    let '(st, initSegment) := getInitSegment wenv st in
    match initSegment with
    | Some init =>
        let st := (set_buffer (init :: _buffer (fst st)) (fst st), snd st) in
        let st := transmit st in
        let st := (set_isTransmitting true (fst st), snd st) in
        (st, true)
    | None =>
        let st := log_error no_init_message st in
        let st := resetNvrConnection st in
        (st, false)
    end.

(** The world before anything happened. *)
Definition world0 : World :=
  {| emitters := fun _ => []; initSegment := fun _ => None; started := [];
     stopped := []; resets := 0; errors := []; emitted := []; closures := 0 |}.

End Settings.

(** ** Runs and examples *)

(** The segments of [segments] arrive one after the other, each handled by the
    listener of "segment". *)
Definition arrivals (segments : list Buffer) (st : State) : State :=
  fold_left (fun st segment => segment_handler segment st) segments st.

(** The last [n] elements of a list, in their order. *)
Definition lastn {A : Type} (n : nat) (l : list A) : list A :=
  skipn (List.length l - n) l.

Module Example.

(** settings.ts with a segment resolution of 100 ms. *)
Definition resolution : number := of_Z 100.

Definition artifact : Buffer := ["f"; "t"; "y"; "p"]%byte.
Definition S1 : Buffer := ["S"; "1"]%byte.
Definition S2 : Buffer := ["S"; "2"]%byte.
Definition S3 : Buffer := ["S"; "3"]%byte.
Definition S4 : Buffer := ["S"; "4"]%byte.
Definition S5 : Buffer := ["S"; "5"]%byte.
Definition S6 : Buffer := ["S"; "6"]%byte.
Definition S7 : Buffer := ["S"; "7"]%byte.

(** The livestream manager hands out livestream object 0 and starts it. *)
Definition env_ok : StartEnv :=
  {| fragmentLength := None; acquired := Some 0%nat; while_starting := [];
     start_result := true |}.

(** The livestream manager hands out livestream object 0 and fails to
    start it. *)
Definition env_fail : StartEnv :=
  {| fragmentLength := None; acquired := Some 0%nat; while_starting := [];
     start_result := false |}.

(** A new buffer whose length is set to [millis]. *)
Definition created (millis : Z) : State :=
  (set_length (of_Z millis) (new resolution None), world0).

(** [length = 500], a successful [start()], the initialization segment
    and the segments S1 .. S7 from the livestream. *)
Definition after_seven : State :=
  deliver
    [InitSegment 0%nat (Some artifact);
     Segment 0%nat S1; Segment 0%nat S2; Segment 0%nat S3; Segment 0%nat S4;
     Segment 0%nat S5; Segment 0%nat S6; Segment 0%nat S7]
    (fst (start resolution None None env_ok (created 500))).

(** [length = 50], a successful [start()] and one segment. *)
Definition short_after_one : State :=
  deliver [Segment 0%nat S1] (fst (start resolution None None env_ok (created 50))).

(** A [start()] that fails after the livestream was acquired. *)
Definition failed_start : State * bool :=
  start resolution None None env_fail (created 500).

(** ... then [stop()] and a [start()] that succeeds. *)
Definition restarted : State * bool :=
  start resolution None None env_ok (fst (stop (fst failed_start))).

End Example.

(** ** The accessors *)

(** [get channel()] *)
Definition channel (t : ProtectTimeshiftBuffer) : number := _channel t.

(** [get lens()] *)
Definition lens (t : ProtectTimeshiftBuffer) : option number := _lens t.

(** [get isStarted()] *)
Definition isStarted (t : ProtectTimeshiftBuffer) : bool := _isStarted t.

(** [get isTransmitting()] *)
Definition isTransmitting (t : ProtectTimeshiftBuffer) : bool := _isTransmitting t.

(** [get segmentLength()] *)
Definition segmentLength (t : ProtectTimeshiftBuffer) : number := _segmentLength t.

(** ** Lifecycles *)

(** What the owner of the buffer and the livestream do to it, one thing after
    the other: a call of a public method, or events of the source between two
    calls. *)
Inductive Call : Type :=
| Start (channelId lens : option number) (env : StartEnv)
| Stop
| TransmitStart (senv : StartEnv) (wenv : WaitEnv)
| TransmitStop
| SetLength (bufferMillis : number)
| Source (evs : list SourceEvent).

Definition step (resolution : number) (st : State) (c : Call) : State :=
  match c with
  | Start channelId lens env => fst (start resolution channelId lens env st)
  | Stop => fst (stop st)
  | TransmitStart senv wenv => fst (transmitStart resolution senv wenv st)
  | TransmitStop => fst (transmitStop st)
  | SetLength bufferMillis => (set_length bufferMillis (fst st), snd st)
  | Source evs => deliver evs st
  end.

Definition run (resolution : number) (calls : list Call) (st : State) : State :=
  fold_left (step resolution) calls st.

(** A [start()] that does not fail once it has acquired the livestream. *)
Definition completes (env : StartEnv) : bool :=
  match acquired env with
  | Some _ => start_result env
  | None => true
  end.

Definition completing (c : Call) : bool :=
  match c with
  | Start _ _ env => completes env
  | TransmitStart senv _ => completes senv
  | _ => true
  end.

(** The two fields and the listeners that [start] and [stop] manage are in
    step: a buffer that is not started has no listener anywhere, and a started
    one has its "close" and its "segment" listener, once each, on its
    livestream and nothing elsewhere. *)
Definition wired (st : State) : Prop :=
  (eventHandlers (fst st) = [("segment"%string, SegmentHandler)]
   \/ exists i, eventHandlers (fst st)
                = [("segment"%string, SegmentHandler); ("close"%string, CloseHandler i)])
  /\ if _isStarted (fst st)
     then exists h i,
         livestream (fst st) = Some h
         /\ eventHandlers (fst st)
            = [("segment"%string, SegmentHandler); ("close"%string, CloseHandler i)]
         /\ emitters (snd st) h
            = [("close"%string, CloseHandler i); ("segment"%string, SegmentHandler)]
         /\ forall h', h' <> h -> emitters (snd st) h' = []
     else forall h', emitters (snd st) h' = [].

(** What holds of the buffer after any calls and events. *)
Definition sound (resolution : number) (st : State) : Prop :=
  _segmentLength (fst st) = resolution
  /\ (_lens (fst st) <> None -> _channel (fst st) = of_Z 0)
  /\ (exists rest, eventHandlers (fst st) = ("segment"%string, SegmentHandler) :: rest)
  /\ (_isStarted (fst st) = true ->
      exists h, livestream (fst st) = Some h
                /\ In SegmentHandler (listeners "segment" (emitters (snd st) h))).

(** The fields that only the constructor and [start] assign are the same in
    both states. *)
Definition same_settings (st st' : State) : Prop :=
  _channel (fst st') = _channel (fst st)
  /\ _lens (fst st') = _lens (fst st)
  /\ _segmentLength (fst st') = _segmentLength (fst st)
  /\ livestream (fst st') = livestream (fst st)
  /\ eventHandlers (fst st') = eventHandlers (fst st).

(** The started flag and the listeners are the same in both states. *)
Definition same_wiring (st st' : State) : Prop :=
  _isStarted (fst st') = _isStarted (fst st)
  /\ emitters (snd st') = emitters (snd st).

(** The parts of [start], to state what it does: the lens and the channel it
    uses, and the buffer after the check of the segment length. *)
Definition start_lens (lens : option number) (t : ProtectTimeshiftBuffer) : option number :=
  match lens with Some l => Some l | None => _lens t end.

Definition start_channel (channelId lens : option number) (t : ProtectTimeshiftBuffer)
  : number :=
  match start_lens lens t with
  | Some _ => of_Z 0
  | None => match channelId with Some c => c | None => _channel t end
  end.

Definition start_validated (resolution : number) (env : StartEnv)
    (t : ProtectTimeshiftBuffer) : ProtectTimeshiftBuffer :=
  match fragmentLength env with
  | Some fl =>
      if truthy fl then
        if ltb (_segmentLength t) (of_Z 100) || gtb (_segmentLength t) (of_Z 1500)
           || gtb (_segmentLength t) (div fl (of_Z 2))
        then set_segmentLength resolution t
        else t
      else t
  | None => t
  end.

(** The state in which [start] acquires the livestream: stopped, the segment
    length checked, the store empty. *)
Definition start_prepared (resolution : number) (env : StartEnv) (st : State) : State :=
  let st1 := if _isStarted (fst st) then fst (stop st) else st in
  (set_livestream (acquired env)
     (set_buffer [] (start_validated resolution env (fst st1))), snd st1).

(** The state in which [start] resumes after the livestream manager answered:
    the listeners attached, the request made, the events of the meantime
    handled. *)
Definition start_awaited (resolution : number) (channelId lens : option number)
    (env : StartEnv) (st : State) : State :=
  let st3 := configureTimeshiftBuffer (start_prepared resolution env st) in
  deliver (while_starting env)
    (fst st3,
     set_started
       (started (snd st3)
        ++ [(start_channel channelId lens (fst st), start_lens lens (fst st),
             _segmentLength (fst st3))])
       (snd st3)).

(** [h] is the livestream the buffer holds. *)
Definition livestream_is (h : Handle) (t : ProtectTimeshiftBuffer) : bool :=
  match livestream t with
  | Some h' => Nat.eqb h' h
  | None => false
  end.

(** ** Rounding and rational values *)

(** The integer nearest to [x / 2^k], the even one of the two when [x] is
    half way: rounding to nearest, ties to even. *)
Definition round_shift (x k : Z) : Z :=
  let q := x / 2 ^ k in
  match 2 * (x mod 2 ^ k) ?= 2 ^ k with
  | Lt => q
  | Eq => if Z.even q then q else q + 1
  | Gt => q + 1
  end.

(** The second half of [binary_round_aux]: a rounded mantissa that reached
    2^53 is shifted once more, and the number is built. *)
Definition round_finish (sx : bool) (mx ex : Z) : number :=
  let '(mrs, e) := shr_fexp prec emax mx ex loc_Exact in
  match shr_m mrs with
  | Z0 => S754_zero sx
  | Zpos m => if e <=? emax - prec then S754_finite sx m e else S754_infinity sx
  | Zneg _ => S754_nan
  end.

(** The rational value of a finite number; none for the infinities and NaN. *)
Definition to_Q (x : number) : option Q :=
  match x with
  | S754_zero _ => Some 0%Q
  | S754_finite s m e => Some (inject_Z (cond_Zopp s (Zpos m)) * 2 ^ e)%Q
  | S754_infinity _ | S754_nan => None
  end.

(** The unit in the last place of the number of the integer [z]. *)
Definition ulp (z : Z) : Q := (2 ^ (Z.log2 (Z.abs z) - 52))%Q.

(** The 53-bit significand of the number of the integer [z], as an integer
    from 2^52 up to 2^53 - 1 when [z] is not 0. *)
Definition significand (z : Z) : Z := Z.abs z * 2 ^ (52 - Z.log2 (Z.abs z)).

(** * Facts *)

(** ** Integers as binary64 numbers *)

Lemma digits2_pos_bounds (m : positive) :
  2 ^ (Zpos (digits2_pos m) - 1) <= Zpos m < 2 ^ Zpos (digits2_pos m).
Proof.
  induction m as [m IH | m IH | ]; cbn [digits2_pos].
  - rewrite Pos2Z.inj_succ, Z.pow_succ_r by lia.
    replace (Z.succ (Zpos (digits2_pos m)) - 1) with (Z.succ (Zpos (digits2_pos m) - 1)) by lia.
    rewrite Z.pow_succ_r by lia. lia.
  - rewrite Pos2Z.inj_succ, Z.pow_succ_r by lia.
    replace (Z.succ (Zpos (digits2_pos m)) - 1) with (Z.succ (Zpos (digits2_pos m) - 1)) by lia.
    rewrite Z.pow_succ_r by lia. lia.
  - cbn. lia.
Qed.

Lemma digits2_pos_le_53 (p : positive) : Zpos p < 2 ^ 53 -> Zpos (digits2_pos p) <= 53.
Proof.
  intros Hp. pose proof (digits2_pos_bounds p) as [Hlo _].
  assert (H : 2 ^ (Zpos (digits2_pos p) - 1) < 2 ^ 53) by lia.
  apply Z.pow_lt_mono_r_iff in H; lia.
Qed.

Lemma iter_xO_value (k m : positive) :
  Zpos (Pos.iter xO m k) = Zpos m * 2 ^ Zpos k.
Proof.
  induction k as [ | k IH] using Pos.peano_ind.
  - cbn. lia.
  - rewrite Pos.iter_succ, Pos2Z.inj_succ, Z.pow_succ_r by lia.
    rewrite Pos2Z.inj_xO, IH. lia.
Qed.

Lemma iter_xO_digits (k m : positive) :
  digits2_pos (Pos.iter xO m k) = (digits2_pos m + k)%positive.
Proof.
  induction k as [ | k IH] using Pos.peano_ind.
  - cbn. lia.
  - rewrite Pos.iter_succ. cbn [digits2_pos]. rewrite IH. lia.
Qed.

Lemma normal_mantissa_value (p : positive) :
  Zpos (digits2_pos p) <= 53 ->
  Zpos (normal_mantissa p) = Zpos p * 2 ^ (53 - Zpos (digits2_pos p)).
Proof.
  intros Hd. unfold normal_mantissa.
  destruct (53 - Zpos (digits2_pos p)) as [ | k | k] eqn:Hk; try lia.
  apply iter_xO_value.
Qed.

Lemma normal_mantissa_digits (p : positive) :
  Zpos (digits2_pos p) <= 53 -> Zpos (digits2_pos (normal_mantissa p)) = 53.
Proof.
  intros Hd. unfold normal_mantissa.
  destruct (53 - Zpos (digits2_pos p)) as [ | k | k] eqn:Hk; try lia.
  rewrite iter_xO_digits. lia.
Qed.

Lemma digits2_pos_mul (k s : positive) :
  Zpos (digits2_pos k) + Zpos (digits2_pos s) - 1 <= Zpos (digits2_pos (k * s))
  <= Zpos (digits2_pos k) + Zpos (digits2_pos s).
Proof.
  pose proof (digits2_pos_bounds k) as [Hkl Hku].
  pose proof (digits2_pos_bounds s) as [Hsl Hsu].
  pose proof (digits2_pos_bounds (k * s)) as [Hml Hmu].
  rewrite Pos2Z.inj_mul in Hml, Hmu.
  assert (Hlo : 2 ^ (Zpos (digits2_pos k) - 1 + (Zpos (digits2_pos s) - 1))
                < 2 ^ Zpos (digits2_pos (k * s))).
  { rewrite Z.pow_add_r by lia.
    assert (0 < 2 ^ (Zpos (digits2_pos k) - 1)) by (apply Z.pow_pos_nonneg; lia).
    assert (0 < 2 ^ (Zpos (digits2_pos s) - 1)) by (apply Z.pow_pos_nonneg; lia).
    nia. }
  assert (Hhi : 2 ^ (Zpos (digits2_pos (k * s)) - 1)
                < 2 ^ (Zpos (digits2_pos k) + Zpos (digits2_pos s))).
  { rewrite Z.pow_add_r by lia. nia. }
  apply Z.pow_lt_mono_r_iff in Hlo; [ | lia | lia].
  apply Z.pow_lt_mono_r_iff in Hhi; [ | lia | lia].
  lia.
Qed.

(** *** Rounding a value that needs no rounding *)

Lemma binary_round_aux_canonical (s : bool) (m : positive) (e : Z) :
  Zpos (digits2_pos m) = 53 -> -1074 <= e <= 971 ->
  binary_round_aux prec emax s (Zpos m) e loc_Exact = S754_finite s m e.
Proof.
  intros Hd He.
  assert (Hf : fexp prec emax (53 + e) - e = 0).
  { unfold fexp, emin, prec, emax. lia. }
  unfold binary_round_aux, shr_fexp. cbn [Zdigits2 shr_record_of_loc].
  rewrite Hd, Hf. cbn [shr shr_m loc_of_shr_record round_nearest_even Zdigits2].
  rewrite Hd, Hf. cbn [shr shr_m].
  replace (e <=? emax - prec) with true; [reflexivity | ].
  symmetry. apply Z.leb_le. unfold emax, prec. lia.
Qed.

Lemma iter_pos_iter {A : Type} (f : A -> A) (n : positive) (x : A) :
  iter_pos f n x = Pos.iter f x n.
Proof.
  revert x. induction n as [n IH | n IH | ]; intros x; cbn [iter_pos Pos.iter].
  - rewrite !IH, !Pos.iter_swap. reflexivity.
  - rewrite !IH. reflexivity.
  - reflexivity.
Qed.

Lemma shr_1_iter_xO (n p : positive) :
  iter_pos shr_1 n {| shr_m := Zpos (Pos.iter xO p n); shr_r := false; shr_s := false |}
  = {| shr_m := Zpos p; shr_r := false; shr_s := false |}.
Proof.
  rewrite iter_pos_iter.
  induction n as [ | n IH] using Pos.peano_ind.
  - reflexivity.
  - rewrite Pos.iter_succ_r, Pos.iter_succ. cbn [shr_1 orb]. exact IH.
Qed.

Lemma binary_round_aux_exact (s : bool) (p : positive) (n e : Z) :
  Zpos (digits2_pos p) = 53 -> 0 <= n -> -1074 <= e + n <= 971 ->
  binary_round_aux prec emax s (Zpos p * 2 ^ n) e loc_Exact = S754_finite s p (e + n).
Proof.
  intros Hd Hn He. destruct n as [ | k | k]; try lia.
  - rewrite Z.pow_0_r, Z.mul_1_r, Z.add_0_r.
    apply binary_round_aux_canonical; lia.
  - rewrite <- iter_xO_value.
    assert (Hf : fexp prec emax (Zpos (digits2_pos (Pos.iter xO p k)) + e) - e = Zpos k).
    { rewrite iter_xO_digits, Pos2Z.inj_add, Hd. unfold fexp, emin, prec, emax. lia. }
    assert (Hf' : fexp prec emax (53 + (e + Zpos k)) - (e + Zpos k) = 0).
    { unfold fexp, emin, prec, emax. lia. }
    unfold binary_round_aux, shr_fexp. cbn [Zdigits2 shr_record_of_loc].
    rewrite Hf. cbn [shr]. rewrite shr_1_iter_xO.
    cbn [shr_m loc_of_shr_record round_nearest_even Zdigits2 shr_record_of_loc].
    rewrite Hd, Hf'. cbn [shr shr_m].
    replace (e + Zpos k <=? emax - prec) with true; [reflexivity | ].
    symmetry. apply Z.leb_le. unfold emax, prec. lia.
Qed.

Lemma binary_round_integer (sgn : bool) (p : positive) :
  Zpos p < 2 ^ 53 -> binary_round prec emax sgn p 0 = integer sgn p.
Proof.
  intros Hp.
  assert (Hd : Zpos (digits2_pos p) <= 53).
  { pose proof (digits2_pos_bounds p) as [Hlo _].
    assert (2 ^ (Zpos (digits2_pos p) - 1) < 2 ^ 53) by lia.
    apply Z.pow_lt_mono_r_iff in H; lia. }
  unfold integer, binary_round, shl_align, normal_mantissa.
  replace (fexp prec emax (Zpos (digits2_pos p) + 0)) with (Zpos (digits2_pos p) - 53)
    by (unfold fexp, emin, prec, emax; lia).
  destruct (53 - Zpos (digits2_pos p)) as [ | k | k] eqn:Hk; try lia.
  - replace (Zpos (digits2_pos p) - 53 - 0) with 0 by lia.
    replace (Zpos (digits2_pos p) - 53) with 0 by lia.
    apply binary_round_aux_canonical; lia.
  - replace (Zpos (digits2_pos p) - 53 - 0) with (Zneg k) by lia.
    apply binary_round_aux_canonical; [ | lia].
    rewrite iter_xO_digits. lia.
Qed.

Lemma of_Z_pos (p : positive) : Zpos p < 2 ^ 53 -> of_Z (Zpos p) = integer false p.
Proof. apply binary_round_integer. Qed.

Lemma of_Z_neg (p : positive) : Zpos p < 2 ^ 53 -> of_Z (Zneg p) = integer true p.
Proof. apply binary_round_integer. Qed.

Lemma of_Z_integer (z : Z) :
  Z.abs z < 2 ^ 53 ->
  of_Z z = match z with
           | Z0 => S754_zero false
           | Zpos p => integer false p
           | Zneg p => integer true p
           end.
Proof.
  intros Hz. destruct z as [ | p | p].
  - reflexivity.
  - apply of_Z_pos. exact Hz.
  - apply of_Z_neg. exact Hz.
Qed.

(** *** Comparisons of integers *)

Lemma SFcompare_of_Z_pos (a b : positive) :
  Zpos a < 2 ^ 53 -> Zpos b < 2 ^ 53 ->
  SFcompare (of_Z (Zpos a)) (of_Z (Zpos b)) = Some (Zpos a ?= Zpos b).
Proof.
  intros Ha Hb. rewrite !of_Z_pos by assumption. unfold integer.
  pose proof (digits2_pos_le_53 a Ha) as Hda.
  pose proof (digits2_pos_le_53 b Hb) as Hdb.
  pose proof (digits2_pos_bounds a) as [Hal Hau].
  pose proof (digits2_pos_bounds b) as [Hbl Hbu].
  cbn [SFcompare]. f_equal.
  destruct (Z.compare_spec (Zpos (digits2_pos a) - 53) (Zpos (digits2_pos b) - 53)) as [He | He | He].
  -     change ((Zpos (normal_mantissa a) ?= Zpos (normal_mantissa b)) = (Zpos a ?= Zpos b)).
    rewrite !normal_mantissa_value by assumption.
    replace (Zpos (digits2_pos b)) with (Zpos (digits2_pos a)) by lia.
    assert (Hc : 0 < 2 ^ (53 - Zpos (digits2_pos a))) by (apply Z.pow_pos_nonneg; lia).
    destruct (Z.compare_spec (Zpos a) (Zpos b)) as [Hab | Hab | Hab].
    + rewrite Hab. apply Z.compare_refl.
    + apply Z.compare_lt_iff. nia.
    + apply Z.compare_gt_iff. nia.
  - symmetry. apply Z.compare_lt_iff.
    assert (2 ^ Zpos (digits2_pos a) <= 2 ^ (Zpos (digits2_pos b) - 1))
      by (apply Z.pow_le_mono_r; lia).
    lia.
  - symmetry. apply Z.compare_gt_iff.
    assert (2 ^ Zpos (digits2_pos b) <= 2 ^ (Zpos (digits2_pos a) - 1))
      by (apply Z.pow_le_mono_r; lia).
    lia.
Qed.

Lemma SFcompare_of_Z (a b : Z) :
  0 <= a < 2 ^ 53 -> 0 <= b < 2 ^ 53 ->
  SFcompare (of_Z a) (of_Z b) = Some (a ?= b).
Proof.
  intros Ha Hb. destruct a as [ | a | a], b as [ | b | b]; try lia.
  - reflexivity.
  - rewrite of_Z_pos by lia. reflexivity.
  - rewrite of_Z_pos by lia. reflexivity.
  - apply SFcompare_of_Z_pos; lia.
Qed.

Lemma ltb_of_Z (a b : Z) :
  0 <= a < 2 ^ 53 -> 0 <= b < 2 ^ 53 -> ltb (of_Z a) (of_Z b) = (a <? b).
Proof.
  intros Ha Hb. unfold ltb, SFltb. rewrite SFcompare_of_Z by assumption.
  unfold Z.ltb. destruct (a ?= b); reflexivity.
Qed.

Lemma leb_of_Z (a b : Z) :
  0 <= a < 2 ^ 53 -> 0 <= b < 2 ^ 53 -> leb (of_Z a) (of_Z b) = (a <=? b).
Proof.
  intros Ha Hb. unfold leb, SFleb. rewrite SFcompare_of_Z by assumption.
  unfold Z.leb. destruct (a ?= b); reflexivity.
Qed.

(** *** Products and quotients of integers *)

Lemma mul_integer (sgn : bool) (k s : positive) :
  Zpos (k * s) < 2 ^ 53 ->
  mul (integer sgn k) (integer false s) = integer sgn (k * s).
Proof.
  intros Hm.
  assert (Hdm : Zpos (digits2_pos (k * s)) <= 53) by (apply digits2_pos_le_53; exact Hm).
  pose proof (digits2_pos_mul k s) as Hd.
  pose proof (Pos2Z.is_pos (digits2_pos k)) as Hk0.
  pose proof (Pos2Z.is_pos (digits2_pos s)) as Hs0.
  set (dk := Zpos (digits2_pos k)) in *. set (ds := Zpos (digits2_pos s)) in *.
  set (dm := Zpos (digits2_pos (k * s))) in *.
  unfold mul, SFmul, integer. fold dk ds dm. rewrite xorb_false_r.
  replace (Zpos (normal_mantissa k * normal_mantissa s))
    with (Zpos (normal_mantissa (k * s)) * 2 ^ (53 + dm - dk - ds)).
  - rewrite binary_round_aux_exact.
    + f_equal. lia.
    + apply normal_mantissa_digits. exact Hdm.
    + lia.
    + lia.
  - rewrite Pos2Z.inj_mul, !normal_mantissa_value by (fold dk ds dm; lia).
    fold dk ds dm. rewrite Pos2Z.inj_mul.
    replace (Zpos k * 2 ^ (53 - dk) * (Zpos s * 2 ^ (53 - ds)))
      with (Zpos k * Zpos s * (2 ^ (53 - dk) * 2 ^ (53 - ds))) by ring.
    rewrite <- Z.mul_assoc, <- !Z.pow_add_r by lia.
    f_equal. f_equal. lia.
Qed.

Lemma div_eucl_exact (q d : Z) : 0 < d -> Z.div_eucl (q * d) d = (q, 0).
Proof.
  intros Hd.
  pose proof (Z.div_mul q d ltac:(lia)) as Hq.
  pose proof (Z.mod_mul q d ltac:(lia)) as Hr.
  unfold Z.div, Z.modulo in Hq, Hr.
  destruct (Z.div_eucl (q * d) d) as [q' r']. cbn in Hq, Hr. congruence.
Qed.

Lemma new_location_0 (n : Z) : new_location n 0 = loc_Exact.
Proof. unfold new_location. destruct (Z.even n); reflexivity. Qed.

Lemma div_integer (sgn : bool) (k s : positive) :
  Zpos (k * s) < 2 ^ 53 ->
  div (integer sgn (k * s)) (integer false s) = integer sgn k.
Proof.
  intros Hm.
  assert (Hdm : Zpos (digits2_pos (k * s)) <= 53) by (apply digits2_pos_le_53; exact Hm).
  pose proof (digits2_pos_mul k s) as Hd.
  pose proof (Pos2Z.is_pos (digits2_pos k)) as Hk0.
  pose proof (Pos2Z.is_pos (digits2_pos s)) as Hs0.
  assert (Hdk : Zpos (digits2_pos k) <= 53) by lia.
  assert (Hds : Zpos (digits2_pos s) <= 53) by lia.
  pose proof (normal_mantissa_digits _ Hdm) as Hnm.
  pose proof (normal_mantissa_digits _ Hds) as Hns.
  pose proof (normal_mantissa_digits _ Hdk) as Hnk.
  pose proof (normal_mantissa_value _ Hdm) as Hvm.
  pose proof (normal_mantissa_value _ Hds) as Hvs.
  pose proof (normal_mantissa_value _ Hdk) as Hvk.
  set (dk := Zpos (digits2_pos k)) in *. set (ds := Zpos (digits2_pos s)) in *.
  set (dm := Zpos (digits2_pos (k * s))) in *.
  unfold div, SFdiv, integer. fold dk ds dm. rewrite xorb_false_r.
  unfold SFdiv_core_binary. cbn [Zdigits2]. rewrite Hnm, Hns.
  replace (Z.min (fexp prec emax (53 + (dm - 53) - (53 + (ds - 53)))) (dm - 53 - (ds - 53)))
    with (dm - ds - 53) by (unfold fexp, emin, prec, emax; lia).
  replace (dm - 53 - (ds - 53) - (dm - ds - 53)) with 53 by lia.
  rewrite Z.shiftl_mul_pow2 by lia.
  replace (Zpos (normal_mantissa (k * s)) * 2 ^ 53)
    with (Zpos (normal_mantissa k) * 2 ^ (dk + ds - dm) * Zpos (normal_mantissa s)).
  - rewrite div_eucl_exact by lia. rewrite new_location_0.
    rewrite binary_round_aux_exact.
    + f_equal. lia.
    + exact Hnk.
    + lia.
    + lia.
  - rewrite Hvm, Hvs, Hvk, Pos2Z.inj_mul.
    replace (Zpos k * 2 ^ (53 - dk) * 2 ^ (dk + ds - dm) * (Zpos s * 2 ^ (53 - ds)))
      with (Zpos k * Zpos s * (2 ^ (53 - dk) * 2 ^ (dk + ds - dm) * 2 ^ (53 - ds))) by ring.
    rewrite <- !Z.mul_assoc, <- !Z.pow_add_r by lia.
    f_equal. f_equal. f_equal. lia.
Qed.

Lemma div_mul_of_Z (k s : Z) :
  1 <= s < 2 ^ 53 -> Z.abs (k * s) < 2 ^ 53 ->
  div (of_Z (k * s)) (of_Z s) = of_Z k /\ mul (of_Z k) (of_Z s) = of_Z (k * s).
Proof.
  intros Hs Hm.
  assert (Hk : Z.abs k < 2 ^ 53).
  { rewrite Z.abs_mul in Hm. pose proof (Z.abs_nonneg k).
    replace (Z.abs s) with s in Hm by lia. nia. }
  assert (Hs' : Z.abs s < 2 ^ 53) by lia.
  rewrite (of_Z_integer (k * s)), (of_Z_integer k), (of_Z_integer s) by assumption.
  destruct s as [ | s | s]; try lia.
  destruct k as [ | k | k]; cbn [Z.mul].
  - split; reflexivity.
  - split; [apply div_integer | apply mul_integer]; exact Hm.
  - split; [apply div_integer | apply mul_integer]; exact Hm.
Qed.

Lemma ToIntegerOrInfinity_of_Z (z : Z) :
  Z.abs z < 2 ^ 53 -> ToIntegerOrInfinity (of_Z z) = Integer z.
Proof.
  intros Hz. rewrite of_Z_integer by exact Hz.
  destruct z as [ | p | p]; [reflexivity | | ];
    unfold integer, ToIntegerOrInfinity; f_equal;
    pose proof (digits2_pos_le_53 p Hz) as Hd;
    rewrite Z.shiftl_div_pow2 by lia;
    rewrite normal_mantissa_value by exact Hd;
    replace (- (Zpos (digits2_pos p) - 53)) with (53 - Zpos (digits2_pos p)) by lia;
    rewrite Z.div_mul by (apply Z.pow_nonzero; lia); reflexivity.
Qed.

(** ** The rolling buffer *)

Ltac fields :=
  cbn [_buffer _channel _isStarted _isTransmitting _lens _segmentLength bufferSize
       livestream eventHandlers
       set_buffer set_channel set_isStarted set_isTransmitting set_lens
       set_segmentLength set_bufferSize set_livestream set_eventHandlers
       emitters initSegment started stopped resets errors emitted closures
       set_emitters set_initSegment set_started set_stopped set_resets set_errors
       set_emitted set_closures fst snd] in *.

Lemma segment_handler_buffering (C : Z) (segment : Buffer) (t : ProtectTimeshiftBuffer) (w : World) :
  1 <= C < 2 ^ 53 - 1 ->
  bufferSize t = of_Z C ->
  _isTransmitting t = false ->
  (List.length (_buffer t) <= Z.to_nat C)%nat ->
  segment_handler segment (t, w)
  = (set_buffer (if Nat.ltb (List.length (_buffer t)) (Z.to_nat C)
                 then (_buffer t ++ [segment])%list
                 else shift (_buffer t ++ [segment])%list) t, w).
Proof.
  intros HC Hsize Htx Hlen.
  destruct t as [b ch st tx le sl bs ls eh]. fields. subst bs tx.
  unfold segment_handler. fields.
  rewrite leb_of_Z by lia.
  replace (C <=? 0) with false by (symmetry; apply Z.leb_gt; lia).
  fields. cbn [negb andb]. unfold gtb, of_nat.
  rewrite ltb_of_Z by (try rewrite length_app; cbn [List.length]; lia).
  rewrite length_app. cbn [List.length].
  destruct (Nat.ltb_spec (List.length b) (Z.to_nat C)) as [Hlt | Hge].
  - replace (C <? Z.of_nat (List.length b + 1)) with false by (symmetry; apply Z.ltb_ge; lia).
    reflexivity.
  - replace (C <? Z.of_nat (List.length b + 1)) with true by (symmetry; apply Z.ltb_lt; lia).
    reflexivity.
Qed.

Lemma lastn_app_le {A : Type} (n : nat) (l : list A) :
  (List.length l <= n)%nat -> lastn n l = l.
Proof.
  intros H. unfold lastn. replace (List.length l - n)%nat with 0%nat by lia. reflexivity.
Qed.

Lemma lastn_length {A : Type} (n : nat) (l : list A) :
  List.length (lastn n l) = Nat.min (List.length l) n.
Proof. unfold lastn. rewrite length_skipn. lia. Qed.

Lemma lastn_min {A : Type} (n : nat) (l : list A) :
  lastn (Nat.min (List.length l) n) l = lastn n l.
Proof. unfold lastn. f_equal. lia. Qed.

Lemma arrivals_buffering (C : Z) (segments : list Buffer) :
  1 <= C < 2 ^ 53 - 1 ->
  forall (t : ProtectTimeshiftBuffer) (w : World),
    bufferSize t = of_Z C ->
    _isTransmitting t = false ->
    (List.length (_buffer t) <= Z.to_nat C)%nat ->
    arrivals segments (t, w)
    = (set_buffer (lastn (Z.to_nat C) (_buffer t ++ segments)) t, w).
Proof.
  intros HC. induction segments as [ | segment segments IH]; intros t w Hsize Htx Hlen.
  - cbn. rewrite app_nil_r, lastn_app_le by exact Hlen. destruct t; reflexivity.
  - unfold arrivals. cbn [fold_left].
    rewrite (segment_handler_buffering C) by assumption.
    fold (arrivals segments). rewrite IH.
    + cbn [_buffer set_buffer]. f_equal.
      destruct (Nat.ltb_spec (List.length (_buffer t)) (Z.to_nat C)) as [Hlt | Hge].
      * rewrite <- app_assoc. reflexivity.
      * destruct (_buffer t) as [ | x b] eqn:Hb; [cbn in Hge; lia | ].
        cbn [List.length] in Hge, Hlen.
        unfold lastn. cbn [shift tl app]. rewrite <- app_assoc. cbn [app].
        set (l := (b ++ segment :: segments)%list).
        assert (Hl : (Z.to_nat C <= List.length l)%nat)
          by (subst l; rewrite length_app; cbn [List.length]; lia).
        cbn [List.length].
        replace (S (List.length l) - Z.to_nat C)%nat
          with (S (List.length l - Z.to_nat C))%nat by lia.
        reflexivity.
    + exact Hsize.
    + exact Htx.
    + cbn [_buffer set_buffer].
      destruct (Nat.ltb_spec (List.length (_buffer t)) (Z.to_nat C)) as [Hlt | Hge].
      * rewrite length_app. cbn. lia.
      * destruct (_buffer t) as [ | x b]; cbn in *; [lia | ].
        rewrite length_app. cbn. lia.
Qed.

(** C2: [N] segments arrive while the buffer is not transmitting and its
    capacity [bufferSize] is an integer [C >= 1] (below 2^53 - 1, so that every
    count is represented exactly). Starting from an empty store, the store
    then holds exactly [min N C] segments: the last [min N C] arrivals, in
    the order they arrived. *)
Theorem buffering_keeps_most_recent
    (C : Z) (segments : list Buffer) (t : ProtectTimeshiftBuffer) (w : World) :
  1 <= C < 2 ^ 53 - 1 ->
  bufferSize t = of_Z C ->
  _isTransmitting t = false ->
  _buffer t = [] ->
  let store := _buffer (fst (arrivals segments (t, w))) in
  let kept := Nat.min (List.length segments) (Z.to_nat C) in
  List.length store = kept /\ store = lastn kept segments.
Proof.
  intros HC Hsize Htx Hempty store kept. subst store kept.
  rewrite (arrivals_buffering C) by (try assumption; rewrite Hempty; cbn; lia).
  fields. rewrite Hempty. cbn [app]. rewrite lastn_length, lastn_min. split; reflexivity.
Qed.

Lemma buffering_keeps_most_recent_witness :
  let t := set_length (of_Z 200) (new (of_Z 100) None) in
  bufferSize t = of_Z 2
  /\ _buffer (fst (arrivals [Example.S1; Example.S2; Example.S3] (t, world0)))
     = [Example.S2; Example.S3].
Proof.
  intros t. split; [reflexivity | ].
  refine (proj2 (buffering_keeps_most_recent
                   2 [Example.S1; Example.S2; Example.S3] t world0 _ _ _ _)).
  - lia.
  - reflexivity.
  - reflexivity.
  - reflexivity.
Defined.

Lemma leb_of_Z_0 (C : Z) : Z.abs C < 2 ^ 53 -> leb (of_Z C) (of_Z 0) = (C <=? 0).
Proof.
  intros HC. rewrite (of_Z_integer C) by exact HC.
  destruct C as [ | p | p]; reflexivity.
Qed.

(** The clamp of the listener at work: with a capacity that is an integer,
    also zero or negative, the store holds at least one segment after an
    arrival while buffering. *)
Lemma integer_capacity_keeps_one
    (C : Z) (segment : Buffer) (t : ProtectTimeshiftBuffer) (w : World) :
  Z.abs C < 2 ^ 53 ->
  Z.of_nat (List.length (_buffer t)) < 2 ^ 53 - 1 ->
  bufferSize t = of_Z C ->
  _isTransmitting t = false ->
  _buffer (fst (segment_handler segment (t, w))) <> [].
Proof.
  intros HC Hlen Hsize Htx.
  destruct t as [b ch st tx le sl bs ls eh]. fields. subst bs tx.
  unfold segment_handler. fields.
  rewrite leb_of_Z_0 by exact HC.
  assert (Hcap : exists C', 1 <= C' < 2 ^ 53 /\
            (if C <=? 0 then of_Z 1 else of_Z C) = of_Z C').
  { destruct (Z.leb_spec C 0); [exists 1 | exists C]; split; try reflexivity; lia. }
  destruct Hcap as (C' & HC' & Heq).
  destruct (C <=? 0); fields; cbn [negb andb]; unfold gtb, of_nat; rewrite Heq;
    (rewrite ltb_of_Z by (try rewrite length_app; cbn [List.length]; lia));
    rewrite length_app; cbn [List.length];
    (destruct (Z.ltb_spec C' (Z.of_nat (List.length b + 1))); fields;
     [ destruct b as [ | x b]; [cbn [List.length] in *; lia | ];
       cbn [shift tl app]; destruct b; discriminate
     | destruct b; discriminate ]).
Qed.

(** C3, on a length below one segment (50 ms with segments of 100 ms): the
    capacity is 0.5, which the handler does not raise to 1, and the one
    segment that arrived while buffering is evicted at once: the store is
    empty. *)
Theorem short_length_evicts_only_segment :
  bufferSize (fst Example.short_after_one) = S754_finite false 4503599627370496 (-53)
  /\ _isTransmitting (fst Example.short_after_one) = false
  /\ _buffer (fst Example.short_after_one) = [].
Proof. vm_compute. repeat split. Qed.

(** ** Transmitting *)

(** C5: while the buffer is transmitting, a segment that arrives is drained
    at once: the store is empty afterwards and exactly one "segment" event was
    emitted, whose payload is the concatenation of all that was in the store
    followed by the new segment; nothing was evicted. *)
Theorem transmitting_arrival_drains
    (segment : Buffer) (t : ProtectTimeshiftBuffer) (w : World) :
  _isTransmitting t = true ->
  let st' := segment_handler segment (t, w) in
  _buffer (fst st') = []
  /\ emitted (snd st') = emitted w ++ [Buffer_concat (_buffer t ++ [segment])].
Proof.
  intros Htx st'. subst st'. unfold segment_handler.
  destruct (leb (bufferSize (set_buffer (_buffer t ++ [segment]) t)) (of_Z 0));
    fields; rewrite Htx; cbn [negb andb]; fields; rewrite Htx;
    unfold transmit; fields; split; reflexivity.
Qed.

Lemma transmitting_arrival_drains_witness :
  let t := set_isTransmitting true (set_buffer [Example.S1] (new (of_Z 100) None)) in
  _isTransmitting t = true
  /\ _buffer (fst (segment_handler Example.S2 (t, world0))) = []
  /\ emitted (snd (segment_handler Example.S2 (t, world0)))
     = [Buffer_concat [Example.S1; Example.S2]].
Proof.
  intros t. split; [reflexivity | ].
  exact (transmitting_arrival_drains Example.S2 t world0 eq_refl).
Defined.

(** ** Reading the buffer *)

Lemma buffer_None (st : State) :
  buffer st = None <-> livestream_initSegment st = None \/ _buffer (fst st) = [].
Proof.
  unfold buffer. destruct (livestream_initSegment st) as [init | ].
  - destruct (_buffer (fst st)) as [ | x b]; cbn [List.length Nat.eqb].
    + split; [intros _; right; reflexivity | reflexivity].
    + split; [discriminate | intros [H | H]; discriminate].
  - split; [intros _; left; reflexivity | reflexivity].
Qed.

Lemma getLast_None (duration : number) (st : State) :
  getLast duration st = None <-> livestream_initSegment st = None \/ _buffer (fst st) = [].
Proof.
  unfold getLast.
  destruct (geb (div duration (_segmentLength (fst st)))
              (of_nat (List.length (_buffer (fst st))))).
  - apply buffer_None.
  - destruct (livestream_initSegment st) as [init | ].
    + destruct (_buffer (fst st)) as [ | x b]; cbn [List.length Nat.eqb].
      * split; [intros _; right; reflexivity | reflexivity].
      * split; [discriminate | intros [H | H]; discriminate].
    + split; [intros _; left; reflexivity | reflexivity].
Qed.

(** C7: [get buffer()] and [getLast(duration)], for any duration, return null
    exactly when the initialization segment is not known or the store is
    empty; so they return null without the initialization segment even when the
    store holds segments, and a byte block only when the initialization
    segment is known and the store is not empty. *)
Theorem reads_null_iff_unavailable (duration : number) (st : State) :
  (buffer st = None <-> livestream_initSegment st = None \/ _buffer (fst st) = [])
  /\ (getLast duration st = None
      <-> livestream_initSegment st = None \/ _buffer (fst st) = []).
Proof. split; [apply buffer_None | apply getLast_None]. Qed.

(** What [getLast] returns for a duration of [k] whole segments, [k] below
    the number of stored segments: the initialization segment followed by
    the store without its first [k] segments. *)
Lemma getLast_whole_segments (k s : Z) (st : State) (init : Buffer) :
  1 <= s < 2 ^ 53 -> 0 <= k -> k * s < 2 ^ 53 ->
  _segmentLength (fst st) = of_Z s ->
  livestream_initSegment st = Some init ->
  k < Z.of_nat (List.length (_buffer (fst st))) < 2 ^ 53 ->
  getLast (of_Z (k * s)) st
  = Some (Buffer_concat (init :: skipn (Z.to_nat k) (_buffer (fst st)))).
Proof.
  intros Hs Hk Hm Hlen Hinit Hstore.
  assert (Hk' : k < 2 ^ 53) by nia.
  unfold getLast. rewrite Hlen, Hinit.
  destruct (div_mul_of_Z k s Hs ltac:(lia)) as [Hdiv _]. rewrite Hdiv.
  unfold geb, of_nat. rewrite leb_of_Z by lia.
  replace (Z.of_nat (List.length (_buffer (fst st))) <=? k) with false
    by (symmetry; apply Z.leb_gt; lia).
  destruct (_buffer (fst st)) as [ | x b] eqn:Hb; [cbn in Hstore; lia | ].
  cbn [List.length Nat.eqb]. unfold slice.
  rewrite ToIntegerOrInfinity_of_Z by lia.
  replace (k <? 0) with false by (symmetry; apply Z.ltb_ge; lia).
  rewrite Z.min_l by lia. reflexivity.
Qed.

(** C1, on the example of the specification (segments of 100 ms, a length of
    500 ms, the arrivals S1 .. S7, so a store [S3; S4; S5; S6; S7]):
    [getLast(100)] returns the initialization segment followed by S4, S5, S6
    and S7, the store from index 1 on, and not by the last segment S7;
    [getLast(250)] returns the initialization segment followed by S5, S6 and
    S7, the store from index 2 on, and not by the last two segments S6 and
    S7. *)
Theorem getLast_after_seven :
  _buffer (fst Example.after_seven)
  = [Example.S3; Example.S4; Example.S5; Example.S6; Example.S7]
  /\ getLast (of_Z 100) Example.after_seven
     = Some (Buffer_concat
               [Example.artifact; Example.S4; Example.S5; Example.S6; Example.S7])
  /\ getLast (of_Z 100) Example.after_seven
     <> Some (Buffer_concat [Example.artifact; Example.S7])
  /\ getLast (of_Z 250) Example.after_seven
     = Some (Buffer_concat [Example.artifact; Example.S5; Example.S6; Example.S7])
  /\ getLast (of_Z 250) Example.after_seven
     <> Some (Buffer_concat [Example.artifact; Example.S6; Example.S7]).
Proof. vm_compute. repeat split; discriminate. Qed.

(** ** Stopping *)

(** C9: in every state [stop()] returns true and leaves the store empty and
    the buffer not started, also when the buffer was not started. *)
Theorem stop_resets (st : State) :
  snd (stop st) = true
  /\ _buffer (fst (fst (stop st))) = []
  /\ _isStarted (fst (fst (stop st))) = false.
Proof. destruct st as [t w]. unfold stop. fields. repeat split. Qed.

(** ** What the listeners and [start] leave alone *)

Lemma transmit_keeps (st : State) :
  _isTransmitting (fst (transmit st)) = _isTransmitting (fst st)
  /\ resets (snd (transmit st)) = resets (snd st)
  /\ livestream (fst (transmit st)) = livestream (fst st).
Proof. destruct st as [t w]. unfold transmit. fields. repeat split. Qed.

Lemma segment_handler_keeps (segment : Buffer) (st : State) :
  _isTransmitting (fst (segment_handler segment st)) = _isTransmitting (fst st)
  /\ resets (snd (segment_handler segment st)) = resets (snd st)
  /\ livestream (fst (segment_handler segment st)) = livestream (fst st).
Proof.
  destruct st as [t w]. unfold segment_handler.
  repeat match goal with
         | |- context [if ?c then _ else _] => destruct c eqn:?
         end; fields; try (rewrite !(proj1 (transmit_keeps _)),
                             !(proj1 (proj2 (transmit_keeps _))),
                             !(proj2 (proj2 (transmit_keeps _)))); fields;
    repeat split.
Qed.

Lemma stop_keeps (st : State) :
  _isTransmitting (fst (fst (stop st))) = _isTransmitting (fst st)
  /\ resets (snd (fst (stop st))) = resets (snd st)
  /\ livestream (fst (fst (stop st))) = livestream (fst st).
Proof.
  destruct st as [t w]. unfold stop. fields.
  destruct (_isStarted t); [destruct (livestream t) | ]; fields; repeat split.
Qed.

Lemma call_keeps (payload : option Buffer) (st : State) (f : Listener) :
  _isTransmitting (fst (call payload st f)) = _isTransmitting (fst st)
  /\ resets (snd (call payload st f)) = resets (snd st)
  /\ livestream (fst (call payload st f)) = livestream (fst st).
Proof.
  destruct f as [ | id]; [destruct payload as [segment | ] | ]; cbn [call].
  - apply segment_handler_keeps.
  - repeat split.
  - destruct st as [t w]. unfold close_handler.
    destruct (stop_keeps (t, set_errors (errors w ++ [close_message]) w)) as (H1 & H2 & H3).
    fields. repeat split; assumption.
Qed.

Lemma calls_keep (payload : option Buffer) (fs : list Listener) (st : State) :
  _isTransmitting (fst (fold_left (call payload) fs st)) = _isTransmitting (fst st)
  /\ resets (snd (fold_left (call payload) fs st)) = resets (snd st)
  /\ livestream (fst (fold_left (call payload) fs st)) = livestream (fst st).
Proof.
  revert st. induction fs as [ | f fs IH]; intros st; cbn [fold_left].
  - repeat split.
  - destruct (IH (call payload st f)) as (H1 & H2 & H3).
    destruct (call_keeps payload st f) as (K1 & K2 & K3).
    repeat split; congruence.
Qed.

Lemma dispatch_keeps (st : State) (ev : SourceEvent) :
  _isTransmitting (fst (dispatch st ev)) = _isTransmitting (fst st)
  /\ resets (snd (dispatch st ev)) = resets (snd st)
  /\ livestream (fst (dispatch st ev)) = livestream (fst st).
Proof.
  destruct ev as [h segment | h | h init]; cbn [dispatch].
  - apply calls_keep.
  - apply calls_keep.
  - fields. repeat split.
Qed.

Lemma deliver_keeps (evs : list SourceEvent) (st : State) :
  _isTransmitting (fst (deliver evs st)) = _isTransmitting (fst st)
  /\ resets (snd (deliver evs st)) = resets (snd st)
  /\ livestream (fst (deliver evs st)) = livestream (fst st).
Proof.
  unfold deliver. revert st. induction evs as [ | ev evs IH]; intros st; cbn [fold_left].
  - repeat split.
  - destruct (IH (dispatch st ev)) as (H1 & H2 & H3).
    destruct (dispatch_keeps st ev) as (K1 & K2 & K3).
    repeat split; congruence.
Qed.

Lemma configureTimeshiftBuffer_keeps (st : State) :
  _isTransmitting (fst (configureTimeshiftBuffer st)) = _isTransmitting (fst st)
  /\ resets (snd (configureTimeshiftBuffer st)) = resets (snd st)
  /\ livestream (fst (configureTimeshiftBuffer st)) = livestream (fst st).
Proof.
  destruct st as [t w]. unfold configureTimeshiftBuffer. fields.
  destruct (livestream t) eqn:Hl; fields;
    [destruct (find _ (assign "close" (CloseHandler (closures w)) (eventHandlers t))) | ];
    fields; repeat split; exact Hl.
Qed.

Lemma start_keeps
    (resolution : number) (channelId lens : option number) (env : StartEnv) (st : State) :
  _isTransmitting (fst (fst (start resolution channelId lens env st))) = _isTransmitting (fst st)
  /\ resets (snd (fst (start resolution channelId lens env st))) = resets (snd st).
Proof.
  destruct st as [t w]. unfold start.
  set (st1 := if _isStarted t then fst (stop (t, w)) else (t, w)).
  assert (H1 : _isTransmitting (fst st1) = _isTransmitting t /\ resets (snd st1) = resets w).
  { subst st1. destruct (_isStarted t).
    - destruct (stop_keeps (t, w)) as (A & B & _). split; assumption.
    - split; reflexivity. }
  destruct st1 as [t1 w1]. fields. destruct H1 as [Htx Hre].
  set (t2 := match fragmentLength env with
             | Some fl => _ | None => t1 end).
  assert (H2 : _isTransmitting t2 = _isTransmitting t1).
  { subst t2. destruct (fragmentLength env) as [fl | ]; [ | reflexivity].
    destruct (truthy fl); [ | reflexivity].
    destruct (_ || _); reflexivity. }
  destruct (acquired env) as [h | ]; fields.
  - set (st3 := configureTimeshiftBuffer _).
    assert (H3 : _isTransmitting (fst st3) = _isTransmitting t2 /\ resets (snd st3) = resets w1).
    { subst st3. destruct (configureTimeshiftBuffer_keeps
        (set_livestream (Some h) (set_buffer [] t2), w1)) as (A & B & _).
      split; assumption. }
    destruct st3 as [t3 w3]. fields. destruct H3 as [Htx3 Hre3].
    set (st4 := deliver _ _).
    assert (H4 : _isTransmitting (fst st4) = _isTransmitting t3 /\ resets (snd st4) = resets w3).
    { subst st4.
      destruct (deliver_keeps (while_starting env)
                  (t3, set_started (started w3 ++
                     [(match match lens with Some l => Some l | None => _lens t end with
                       | Some _ => of_Z 0
                       | None => match channelId with Some c => c | None => _channel t end
                       end,
                       match lens with Some l => Some l | None => _lens t end,
                       _segmentLength t3)]) w3)) as (A & B & _).
      split; assumption. }
    destruct st4 as [t4 w4]. fields. destruct H4 as [Htx4 Hre4].
    destruct (start_result env); fields; split; congruence.
  - split; congruence.
Qed.

(** ** Transmitting without an initialization segment *)

(** C6: [transmitStart()] on a buffer that is started (it was already, or the
    [start()] that [transmitStart()] calls succeeded) and whose livestream has
    no initialization segment, neither at once nor after the wait of
    [getInitSegment()], whatever the source delivers meanwhile: it returns
    false, it leaves the transmitting flag as it was (so it never sets it)
    and it calls [resetNvrConnection()] once. *)
Theorem transmitStart_without_init
    (resolution : number) (senv : StartEnv) (wenv : WaitEnv) (st : State) :
  let session :=
    if _isStarted (fst st) then (st, true) else start resolution None None senv st in
  snd session = true ->
  livestream_initSegment (fst session) = None ->
  livestream_initSegment (deliver wenv (fst session)) = None ->
  let r := transmitStart resolution senv wenv st in
  snd r = false
  /\ _isTransmitting (fst (fst r)) = _isTransmitting (fst st)
  /\ resets (snd (fst r)) = S (resets (snd st)).
Proof.
  intros session Hstarted Hnow Hlater r.
  assert (Hkeep : _isTransmitting (fst (fst session)) = _isTransmitting (fst st)
                  /\ resets (snd (fst session)) = resets (snd st)).
  { subst session. destruct (_isStarted (fst st)).
    - split; reflexivity.
    - apply start_keeps. }
  subst r. unfold transmitStart. fold session.
  destruct session as [st1 ok]. cbn [fst snd] in *. subst ok. cbn [negb].
  unfold getInitSegment. rewrite Hnow, Hlater.
  destruct (deliver_keeps wenv st1) as (Htx & Hresets & _).
  destruct Hkeep as [Htx1 Hresets1].
  unfold resetNvrConnection, log_error. fields. rewrite Htx, Hresets, Htx1, Hresets1.
  repeat split.
Qed.

Lemma transmitStart_without_init_witness :
  let st := fst (start Example.resolution None None Example.env_ok (Example.created 500)) in
  let r := transmitStart Example.resolution Example.env_ok [Segment 0%nat Example.S1] st in
  _isStarted (fst st) = true
  /\ snd r = false /\ _isTransmitting (fst (fst r)) = false /\ resets (snd (fst r)) = 1%nat.
Proof.
  intros st. split; [reflexivity | ].
  exact (transmitStart_without_init Example.resolution Example.env_ok
           [Segment 0%nat Example.S1] st eq_refl eq_refl eq_refl).
Defined.

(** ** Listeners after a start that fails *)

(** *** A buffer that is not started detaches nothing *)

Lemma segment_handler_idle (segment : Buffer) (st : State) :
  _isStarted (fst (segment_handler segment st)) = _isStarted (fst st)
  /\ emitters (snd (segment_handler segment st)) = emitters (snd st).
Proof.
  destruct st as [t w]. unfold segment_handler, transmit.
  repeat match goal with
         | |- context [if ?c then _ else _] => destruct c eqn:?
         end; fields; split; reflexivity.
Qed.

Lemma stop_idle (st : State) :
  _isStarted (fst st) = false ->
  _isStarted (fst (fst (stop st))) = false
  /\ emitters (snd (fst (stop st))) = emitters (snd st).
Proof.
  destruct st as [t w]. fields. intros H. unfold stop. rewrite H. fields.
  split; reflexivity.
Qed.

Lemma call_idle (payload : option Buffer) (st : State) (f : Listener) :
  _isStarted (fst st) = false ->
  _isStarted (fst (call payload st f)) = false
  /\ emitters (snd (call payload st f)) = emitters (snd st).
Proof.
  intros H. destruct f as [ | id]; [destruct payload as [segment | ] | ]; cbn [call].
  - destruct (segment_handler_idle segment st) as [A B]. split; congruence.
  - split; [exact H | reflexivity].
  - destruct st as [t w]. unfold close_handler.
    apply (stop_idle (t, set_errors (errors w ++ [close_message]) w)). exact H.
Qed.

Lemma calls_idle (payload : option Buffer) (fs : list Listener) (st : State) :
  _isStarted (fst st) = false ->
  _isStarted (fst (fold_left (call payload) fs st)) = false
  /\ emitters (snd (fold_left (call payload) fs st)) = emitters (snd st).
Proof.
  revert st. induction fs as [ | f fs IH]; intros st H; cbn [fold_left].
  - split; [exact H | reflexivity].
  - destruct (call_idle payload st f H) as [A B].
    destruct (IH _ A) as [A' B']. split; congruence.
Qed.

Lemma deliver_idle (evs : list SourceEvent) (st : State) :
  _isStarted (fst st) = false ->
  _isStarted (fst (deliver evs st)) = false
  /\ emitters (snd (deliver evs st)) = emitters (snd st).
Proof.
  unfold deliver. revert st. induction evs as [ | ev evs IH]; intros st H; cbn [fold_left].
  - split; [exact H | reflexivity].
  - assert (Hev : _isStarted (fst (dispatch st ev)) = false
                  /\ emitters (snd (dispatch st ev)) = emitters (snd st)).
    { destruct ev as [h segment | h | h init]; cbn [dispatch].
      - apply calls_idle. exact H.
      - apply calls_idle. exact H.
      - fields. split; [exact H | reflexivity]. }
    destruct Hev as [A B]. destruct (IH _ A) as [A' B']. split; congruence.
Qed.

Lemma listeners_on (eventName : string) (f : Listener) (e : Emitter) :
  listeners eventName (on eventName f e) = listeners eventName e ++ [f].
Proof.
  unfold listeners, on. rewrite filter_app, map_app. cbn [filter fst].
  rewrite String.eqb_refl. reflexivity.
Qed.

Lemma listeners_on_other (eventName other : string) (f : Listener) (e : Emitter) :
  String.eqb other eventName = false ->
  listeners eventName (on other f e) = listeners eventName e.
Proof.
  intros H. unfold listeners, on. rewrite filter_app, map_app. cbn [filter fst].
  rewrite H. cbn [map]. apply app_nil_r.
Qed.

Lemma update_same {A : Type} (f : Handle -> A) (h : Handle) (v : A) : update f h v h = v.
Proof. unfold update. rewrite Nat.eqb_refl. reflexivity. Qed.

(** Whatever the state and whatever the source delivers meanwhile: when the
    livestream was acquired and the request to start it fails, [start()]
    returns false and leaves the two listeners it attached. *)
Lemma start_failure_keeps_listeners
    (resolution : number) (channelId lens : option number) (env : StartEnv)
    (st : State) (h : Handle) (rest : list (string * Listener)) :
  acquired env = Some h ->
  start_result env = false ->
  eventHandlers (fst st) = ("segment"%string, SegmentHandler) :: rest ->
  let r := start resolution channelId lens env st in
  snd r = false
  /\ _isStarted (fst (fst r)) = false
  /\ In SegmentHandler (listeners "segment" (emitters (snd (fst r)) h))
  /\ In (CloseHandler (closures (snd st))) (listeners "close" (emitters (snd (fst r)) h)).
Proof.
  intros Hacq Hfail Hhandlers r. subst r.
  destruct st as [t w]. fields. unfold start. rewrite Hacq, Hfail.
  set (st1 := if _isStarted t then fst (stop (t, w)) else (t, w)).
  assert (H1 : _isStarted (fst st1) = false /\ eventHandlers (fst st1) = eventHandlers t
                /\ closures (snd st1) = closures w).
  { subst st1. destruct (_isStarted t) eqn:Hs.
    - unfold stop. rewrite Hs. fields. destruct (livestream t); fields; repeat split.
    - fields. repeat split. exact Hs. }
  destruct st1 as [t1 w1]. fields. destruct H1 as (Hs1 & He1 & Hc1).
  set (t2 := match fragmentLength env with
             | Some fl => _ | None => t1 end).
  assert (H2 : _isStarted t2 = false /\ eventHandlers t2 = eventHandlers t).
  { subst t2. destruct (fragmentLength env) as [fl | ]; [ | split; congruence].
    destruct (truthy fl); [ | split; congruence].
    destruct (_ || _); fields; split; congruence. }
  destruct H2 as [Hs2 He2].
  unfold configureTimeshiftBuffer. fields. rewrite He2, Hhandlers.
  cbn [assign fst String.eqb Ascii.eqb Bool.eqb find snd].
  match goal with
  | |- context [deliver ?evs ?s] =>
      destruct (deliver_idle evs s) as [Hidle Hemit]; [fields; exact Hs2 | ];
      destruct (deliver evs s) as [t4 w4]
  end.
  fields. rewrite Hemit, !update_same, Hc1.
  repeat split.
  - exact Hidle.
  - rewrite listeners_on. apply in_or_app. right. left. reflexivity.
  - rewrite listeners_on_other by reflexivity. rewrite listeners_on.
    apply in_or_app. right. left. reflexivity.
Qed.

(** C4, when the livestream is acquired and the request to start it fails:
    [start()] returns false, and the listeners of "close" and of "segment"
    that it attached are still attached to the livestream. *)
Theorem failed_start_keeps_listeners :
  snd Example.failed_start = false
  /\ _isStarted (fst (fst Example.failed_start)) = false
  /\ emitters (snd (fst Example.failed_start)) 0%nat
     = [("close"%string, CloseHandler 0); ("segment"%string, SegmentHandler)].
Proof. vm_compute. repeat split. Qed.

(** C8, after a [start()] that fails once the livestream is acquired, a
    [stop()] and a [start()] that succeeds on the same livestream: the
    listener of "segment" is attached twice, and one segment from the
    livestream is appended to the store twice. *)
Theorem restart_duplicates_segment_listener :
  snd Example.restarted = true
  /\ listeners "segment" (emitters (snd (fst Example.restarted)) 0%nat)
     = [SegmentHandler; SegmentHandler]
  /\ _buffer (fst (deliver [Segment 0%nat Example.S1] (fst Example.restarted)))
     = [Example.S1; Example.S1].
Proof. vm_compute. repeat split. Qed.

(** ** The length accessors *)

(** *** Rounding in binary64 *)

Lemma shr_1_nonneg (m : Z) (r s : bool) :
  0 <= m ->
  shr_1 {| shr_m := m; shr_r := r; shr_s := s |}
  = {| shr_m := m / 2; shr_r := Z.odd m; shr_s := r || s |}.
Proof.
  intros Hm. destruct m as [ | p | p]; [reflexivity | | lia].
  destruct p as [p | p | ]; cbn [shr_1 Z.odd].
  - f_equal. rewrite Pos2Z.inj_xI. apply Z.div_unique with (r := 1); lia.
  - f_equal. rewrite Pos2Z.inj_xO. apply Z.div_unique with (r := 0); lia.
  - reflexivity.
Qed.

(** [k + 1] shifts to the right: the quotient, the bit that went last and
    whether a bit went before it. *)
Lemma shr_1_iter (k : nat) (x : Z) :
  0 <= x ->
  Nat.iter (S k) shr_1 {| shr_m := x; shr_r := false; shr_s := false |}
  = {| shr_m := x / 2 ^ Z.of_nat (S k);
       shr_r := 2 ^ Z.of_nat k <=? x mod 2 ^ Z.of_nat (S k);
       shr_s := negb (x mod 2 ^ Z.of_nat k =? 0) |}.
Proof.
  intros Hx. induction k as [ | k IH].
  - cbn [Nat.iter]. rewrite shr_1_nonneg by exact Hx. cbn [orb].
    change (2 ^ Z.of_nat 1) with 2. change (2 ^ Z.of_nat 0) with 1.
    rewrite Z.mod_1_r. cbn [Z.eqb negb]. f_equal.
    rewrite Zodd_mod. pose proof (Z.mod_pos_bound x 2 ltac:(lia)).
    destruct (Z.eqb_spec (x mod 2) 1), (Z.leb_spec 1 (x mod 2)); try reflexivity; lia.
  - change (Nat.iter (S (S k)) shr_1 ?r) with (shr_1 (Nat.iter (S k) shr_1 r)).
    rewrite IH.
    assert (Hp : 0 < 2 ^ Z.of_nat k) by (apply Z.pow_pos_nonneg; lia).
    assert (Hp1 : 2 ^ Z.of_nat (S k) = 2 * 2 ^ Z.of_nat k)
      by (rewrite Nat2Z.inj_succ, Z.pow_succ_r by lia; reflexivity).
    assert (Hp2 : 2 ^ Z.of_nat (S (S k)) = 2 * 2 ^ Z.of_nat (S k))
      by (rewrite (Nat2Z.inj_succ (S k)), Z.pow_succ_r by lia; reflexivity).
    rewrite shr_1_nonneg by (apply Z.div_pos; lia).
    set (P := 2 ^ Z.of_nat k) in *. set (P1 := 2 ^ Z.of_nat (S k)) in *.
    set (P2 := 2 ^ Z.of_nat (S (S k))) in *.
    pose proof (Z.div_mod x P1 ltac:(lia)) as D1.
    pose proof (Z.mod_pos_bound x P1 ltac:(lia)) as B1.
    pose proof (Z.div_mod x P ltac:(lia)) as D0.
    pose proof (Z.mod_pos_bound x P ltac:(lia)) as B0.
    pose proof (Z.div_mod (x / P1) 2 ltac:(lia)) as D2.
    pose proof (Z.mod_pos_bound (x / P1) 2 ltac:(lia)) as B2.
    pose proof (Z.div_mod (x / P) 2 ltac:(lia)) as D3.
    pose proof (Z.mod_pos_bound (x / P) 2 ltac:(lia)) as B3.
    assert (Hdiv : x / P1 / 2 = x / P2).
    { rewrite Z.div_div by lia. f_equal. lia. }
    assert (Hmod2 : x mod P2 = x mod P1 + P1 * ((x / P1) mod 2)).
    { rewrite Hp2, (Z.mul_comm 2 P1). apply Z.rem_mul_r; lia. }
    assert (Hmod1 : x mod P1 = x mod P + P * ((x / P) mod 2)).
    { rewrite Hp1, (Z.mul_comm 2 P). apply Z.rem_mul_r; lia. }
    f_equal.
    + exact Hdiv.
    + rewrite Zodd_mod, Hmod2.
      assert (E : (x / P1) mod 2 = 0 \/ (x / P1) mod 2 = 1) by lia.
      destruct E as [E | E]; rewrite E; cbn [Z.eqb];
        match goal with |- context [Z.leb ?a ?b] => destruct (Z.leb_spec a b) end;
        try reflexivity; lia.
    + rewrite Hmod1.
      assert (E : (x / P) mod 2 = 0 \/ (x / P) mod 2 = 1) by lia.
      destruct E as [E | E]; rewrite E;
        repeat match goal with
               | |- context [Z.leb ?a ?b] => destruct (Z.leb_spec a b)
               | |- context [Z.eqb ?a ?b] => destruct (Z.eqb_spec a b)
               end;
        cbn [orb negb]; try reflexivity; lia.
Qed.

Lemma round_shift_iter (x : Z) (k : positive) :
  0 <= x ->
  let mrs := iter_pos shr_1 k {| shr_m := x; shr_r := false; shr_s := false |} in
  round_nearest_even (shr_m mrs) (loc_of_shr_record mrs) = round_shift x (Zpos k).
Proof.
  intros Hx. cbv zeta. rewrite iter_pos_iter, Pos2Nat.inj_iter.
  destruct (Pos2Nat.is_succ k) as [j Hj]. rewrite Hj.
  change (nat_rect _ ?r (fun _ => shr_1) (S j)) with (Nat.iter (S j) shr_1 r).
  rewrite shr_1_iter by exact Hx.
  assert (Hk : Z.of_nat (S j) = Zpos k) by (rewrite <- Hj; apply positive_nat_Z).
  rewrite Hk. unfold round_shift. cbn [shr_m].
  assert (Hp : 0 < 2 ^ Z.of_nat j) by (apply Z.pow_pos_nonneg; lia).
  assert (Hp1 : 2 ^ Zpos k = 2 * 2 ^ Z.of_nat j).
  { rewrite <- Hk, Nat2Z.inj_succ, Z.pow_succ_r by lia. reflexivity. }
  set (P := 2 ^ Z.of_nat j) in *. set (P1 := 2 ^ Zpos k) in *.
  pose proof (Z.mod_pos_bound x P ltac:(lia)) as B0.
  pose proof (Z.mod_pos_bound (x / P) 2 ltac:(lia)) as B3.
  assert (Hmod1 : x mod P1 = x mod P + P * ((x / P) mod 2)).
  { rewrite Hp1, (Z.mul_comm 2 P). apply Z.rem_mul_r; lia. }
  rewrite Hmod1.
  assert (E : (x / P) mod 2 = 0 \/ (x / P) mod 2 = 1) by lia.
  destruct E as [E | E]; rewrite E;
    repeat match goal with
           | |- context [Z.leb ?a ?b] => destruct (Z.leb_spec a b)
           | |- context [Z.eqb ?a ?b] => destruct (Z.eqb_spec a b)
           | |- context [Z.compare ?a ?b] => destruct (Z.compare_spec a b)
           end;
    cbn [negb loc_of_shr_record round_nearest_even]; try reflexivity; lia.
Qed.

Lemma round_shift_error (x k : Z) :
  0 <= x -> 0 <= k -> 2 * Z.abs (round_shift x k * 2 ^ k - x) <= 2 ^ k.
Proof.
  intros Hx Hk. unfold round_shift.
  assert (Hp : 0 < 2 ^ k) by (apply Z.pow_pos_nonneg; lia).
  pose proof (Z.div_mod x (2 ^ k) ltac:(lia)) as D.
  pose proof (Z.mod_pos_bound x (2 ^ k) ltac:(lia)) as B.
  set (P := 2 ^ k) in *. set (q := x / P) in *. set (lo := x mod P) in *.
  destruct (Z.compare_spec (2 * lo) P); [destruct (Z.even q) | | ]; nia.
Qed.

Lemma round_shift_bounds (x d : Z) :
  53 <= d -> 2 ^ (d - 1) <= x < 2 ^ d ->
  2 ^ 52 <= round_shift x (d - 53) <= 2 ^ 53.
Proof.
  intros Hd [Hlo Hhi]. unfold round_shift.
  assert (Hp : 0 < 2 ^ (d - 53)) by (apply Z.pow_pos_nonneg; lia).
  assert (H1 : 2 ^ (d - 1) = 2 ^ 52 * 2 ^ (d - 53))
    by (rewrite <- Z.pow_add_r by lia; f_equal; lia).
  assert (H2 : 2 ^ d = 2 ^ 53 * 2 ^ (d - 53))
    by (rewrite <- Z.pow_add_r by lia; f_equal; lia).
  assert (Hq : 2 ^ 52 <= x / 2 ^ (d - 53) < 2 ^ 53).
  { split.
    - apply Z.div_le_lower_bound; lia.
    - apply Z.div_lt_upper_bound; lia. }
  destruct (_ ?= _); [destruct (Z.even _) | | ]; lia.
Qed.

Lemma digits2_pos_unique (p : positive) (d : Z) :
  2 ^ (d - 1) <= Zpos p < 2 ^ d -> Zpos (digits2_pos p) = d.
Proof.
  intros [Hlo Hhi]. pose proof (digits2_pos_bounds p) as [Blo Bhi].
  assert (Hd : 0 < d).
  { destruct d as [ | d | d]; [cbn in Hhi; lia | lia | ].
    rewrite Z.pow_neg_r in Hhi by lia. lia. }
  assert (H1 : 2 ^ (d - 1) < 2 ^ Zpos (digits2_pos p)) by lia.
  assert (H2 : 2 ^ (Zpos (digits2_pos p) - 1) < 2 ^ d) by lia.
  apply Z.pow_lt_mono_r_iff in H1; [ | lia | lia].
  apply Z.pow_lt_mono_r_iff in H2; [ | lia | lia].
  lia.
Qed.

Lemma binary_round_aux_finish (sx : bool) (mx ex : Z) (lx : location) :
  binary_round_aux prec emax sx mx ex lx
  = let '(mrs, e) := shr_fexp prec emax mx ex lx in
    round_finish sx (round_nearest_even (shr_m mrs) (loc_of_shr_record mrs)) e.
Proof. reflexivity. Qed.

(** A mantissa between 2^52 and 2^53, the latter included, gives a number of
    that value with a mantissa of 53 bits. *)
Lemma round_finish_normal (sx : bool) (v e : Z) :
  2 ^ 52 <= v <= 2 ^ 53 -> -1074 <= e <= 970 ->
  exists (r : positive) (e' : Z),
    round_finish sx v e = S754_finite sx r e'
    /\ Zpos (digits2_pos r) = 53
    /\ e <= e' <= e + 1
    /\ Zpos r * 2 ^ (e' - e) = v.
Proof.
  intros Hv He.
  destruct v as [ | p | p]; try lia.
  destruct (Z.eq_dec (Zpos p) (2 ^ 53)) as [Htop | Hbelow].
  - exists (4503599627370496)%positive, (e + 1).
    injection Htop as ->. unfold round_finish, shr_fexp.
    cbn [Zdigits2 digits2_pos Pos.succ shr_record_of_loc].
    replace (fexp prec emax (54 + e) - e) with 1 by (unfold fexp, emin, prec, emax; lia).
    cbn [shr iter_pos shr_1 shr_m orb].
    replace (e + 1 <=? emax - prec) with true
      by (symmetry; apply Z.leb_le; unfold emax, prec; lia).
    repeat split; try lia.
    replace (e + 1 - e) with 1 by lia. reflexivity.
  - exists p, e.
    assert (Hd : Zpos (digits2_pos p) = 53) by (apply digits2_pos_unique; lia).
    unfold round_finish, shr_fexp. cbn [Zdigits2 shr_record_of_loc]. rewrite Hd.
    replace (fexp prec emax (53 + e) - e) with 0 by (unfold fexp, emin, prec, emax; lia).
    cbn [shr shr_m].
    replace (e <=? emax - prec) with true
      by (symmetry; apply Z.leb_le; unfold emax, prec; lia).
    repeat split; try lia.
    rewrite Z.sub_diag. lia.
Qed.

(** Rounding an integer of more than 53 bits. *)
Lemma binary_round_aux_wide (sx : bool) (x : positive) (e : Z) :
  let k := Zpos (digits2_pos x) - 53 in
  1 <= k -> -1074 <= e + k <= 970 ->
  exists (r : positive) (e' : Z),
    binary_round_aux prec emax sx (Zpos x) e loc_Exact = S754_finite sx r e'
    /\ Zpos (digits2_pos r) = 53
    /\ e + k <= e' <= e + k + 1
    /\ Zpos r * 2 ^ (e' - e) = round_shift (Zpos x) k * 2 ^ k.
Proof.
  intros k Hk He.
  pose proof (digits2_pos_bounds x) as Hx.
  assert (Hb : 2 ^ 52 <= round_shift (Zpos x) k <= 2 ^ 53).
  { apply round_shift_bounds; [lia | ].
    replace (Zpos (digits2_pos x) - 1) with (Zpos (digits2_pos x) - 1) in Hx by lia.
    exact Hx. }
  destruct (round_finish_normal sx (round_shift (Zpos x) k) (e + k) Hb He)
    as (r & e' & Hr & Hd & He' & Hv).
  exists r, e'. rewrite binary_round_aux_finish. unfold shr_fexp.
  cbn [Zdigits2 shr_record_of_loc].
  replace (fexp prec emax (Zpos (digits2_pos x) + e) - e) with k
    by (unfold fexp, emin, prec, emax; lia).
  destruct k as [ | kp | kp] eqn:Ek; try lia.
  cbn [shr]. rewrite round_shift_iter by lia.
  repeat split; try assumption; try lia.
  rewrite <- Hv, <- Z.mul_assoc, <- Z.pow_add_r by lia. f_equal. f_equal. lia.
Qed.

Lemma new_location_cases (n r : Z) :
  0 <= r < n ->
  match new_location n r with
  | loc_Exact => r = 0
  | loc_Inexact Lt => 0 < r /\ 2 * r < n
  | loc_Inexact Eq => 0 < r /\ 2 * r = n
  | loc_Inexact Gt => 0 < r /\ 2 * r > n
  end.
Proof.
  intros Hr. unfold new_location, new_location_even, new_location_odd.
  destruct (Z.even n) eqn:Hn;
    destruct (Z.eqb_spec r 0) as [E | E]; try exact E.
  - destruct (Z.compare_spec (2 * r) n); lia.
  - assert (Ho : n mod 2 = 1).
    { rewrite <- Z.negb_odd in Hn. apply negb_false_iff in Hn.
      rewrite Zodd_mod in Hn. apply Z.eqb_eq in Hn. exact Hn. }
    pose proof (Z.div_mod n 2 ltac:(lia)) as D.
    destruct (Z.compare_spec (2 * r + 1) n); lia.
Qed.

(** Rounding a quotient [q + r / n] of 53 or 54 bits. *)
Lemma binary_round_aux_quotient (sx : bool) (q : positive) (n r e : Z) :
  0 <= r < n ->
  53 <= Zpos (digits2_pos q) <= 54 ->
  -1074 <= e <= 969 ->
  exists (m : positive) (e' : Z),
    binary_round_aux prec emax sx (Zpos q) e (new_location n r) = S754_finite sx m e'
    /\ Zpos (digits2_pos m) = 53
    /\ e <= e' <= e + 2
    /\ (Zpos (digits2_pos q) = 53 ->
        2 * Z.abs (Zpos m * 2 ^ (e' - e) * n - (Zpos q * n + r)) <= n)
    /\ (Zpos (digits2_pos q) = 54 ->
        Z.abs (Zpos m * 2 ^ (e' - e) * n - (Zpos q * n + r)) <= n).
Proof.
  intros Hr Hd He.
  pose proof (digits2_pos_bounds q) as Hq.
  pose proof (new_location_cases n r Hr) as Hloc.
  rewrite binary_round_aux_finish. unfold shr_fexp. cbn [Zdigits2].
  destruct (Z.eq_dec (Zpos (digits2_pos q)) 53) as [H53 | H53].
  - rewrite H53 in *.
    replace (fexp prec emax (53 + e) - e) with 0 by (unfold fexp, emin, prec, emax; lia).
    cbn [shr].
    set (v := round_nearest_even _ _).
    assert (Hv : (v = Zpos q \/ v = Zpos q + 1)
                 /\ 2 * Z.abs (v * n - (Zpos q * n + r)) <= n).
    { subst v. revert Hloc. destruct (new_location n r) as [ | [ | | ]]; intros Hloc;
        cbn [shr_record_of_loc shr_m loc_of_shr_record round_nearest_even];
        try destruct (Z.even (Zpos q)); split; try (left; reflexivity);
        try (right; reflexivity); nia. }
    destruct Hv as [Hv Herr].
    assert (Hq' : 2 ^ 52 <= Zpos q < 2 ^ 53) by exact Hq.
    assert (Hvb : 2 ^ 52 <= v <= 2 ^ 53) by lia.
    assert (Heb : -1074 <= e <= 970) by lia.
    destruct (round_finish_normal sx v e Hvb Heb) as (m & e' & Hm & Hdm & He' & Hval).
    exists m, e'. rewrite Hval. repeat split; try assumption; try lia.
  - assert (H54 : Zpos (digits2_pos q) = 54) by lia. rewrite H54 in *.
    replace (fexp prec emax (54 + e) - e) with 1 by (unfold fexp, emin, prec, emax; lia).
    cbn [shr iter_pos].
    pose proof (Z.div_mod (Zpos q) 2 ltac:(lia)) as D.
    pose proof (Z.mod_pos_bound (Zpos q) 2 ltac:(lia)) as B.
    set (v := round_nearest_even _ _).
    assert (Hv : (v = Zpos q / 2 \/ v = Zpos q / 2 + 1)
                 /\ Z.abs (2 * v * n - (Zpos q * n + r)) <= n).
    { subst v. revert Hloc.
      assert (Hqn : Zpos q * n = 2 * (Zpos q / 2 * n) + Zpos q mod 2 * n)
        by (rewrite D at 1; ring).
      assert (Hup : 2 * (Zpos q / 2 + 1) * n = 2 * (Zpos q / 2 * n) + 2 * n) by ring.
      assert (Hdown : 2 * (Zpos q / 2) * n = 2 * (Zpos q / 2 * n)) by ring.
      assert (E : Zpos q mod 2 = 0 \/ Zpos q mod 2 = 1) by lia.
      destruct (new_location n r) as [ | [ | | ]]; intros Hloc;
        cbn [shr_record_of_loc]; rewrite shr_1_nonneg by lia;
        rewrite Zodd_mod;
        destruct E as [E | E]; rewrite E in *;
        cbn [Z.eqb Pos.eqb orb shr_m loc_of_shr_record round_nearest_even];
        try destruct (Z.even (Zpos q / 2)); split; try (left; reflexivity);
        try (right; reflexivity); rewrite ?Hup, ?Hdown, ?Hqn; lia. }
    destruct Hv as [Hv Herr].
    assert (Hq' : 2 * 2 ^ 52 <= Zpos q < 2 * 2 ^ 53) by exact Hq.
    assert (Hvb : 2 ^ 52 <= v <= 2 ^ 53) by lia.
    assert (Heb : -1074 <= e + 1 <= 970) by lia.
    destruct (round_finish_normal sx v (e + 1) Hvb Heb)
      as (m & e' & Hm & Hdm & He' & Hval).
    exists m, e'. repeat split; try assumption; try lia.
    intros _.
    replace (e' - e) with (1 + (e' - (e + 1))) by lia.
    rewrite Z.pow_add_r by lia. change (2 ^ 1) with 2.
    replace (Zpos m * (2 * 2 ^ (e' - (e + 1)))) with (2 * (Zpos m * 2 ^ (e' - (e + 1)))) by ring.
    rewrite Hval. exact Herr.
Qed.

(** *** The quotient and the product of any two integers *)

Lemma div_eucl_spec (a b : Z) :
  0 < b -> Z.div_eucl a b = (a / b, a mod b).
Proof.
  intros _. unfold Z.div, Z.modulo. destruct (Z.div_eucl a b); reflexivity.
Qed.

Lemma div_integer_any (sg : bool) (m s : positive) :
  Zpos m < 2 ^ 53 -> Zpos s < 2 ^ 53 ->
  exists (mq : positive) (c : Z),
    div (integer sg m) (integer false s)
    = S754_finite sg mq (Zpos (digits2_pos m) - Zpos (digits2_pos s) - 53 + c)
    /\ Zpos (digits2_pos mq) = 53
    /\ 0 <= c <= 2
    /\ Z.abs (Zpos mq * 2 ^ c * Zpos (normal_mantissa s) - Zpos (normal_mantissa m) * 2 ^ 53)
       <= Zpos (normal_mantissa s)
    /\ (Zpos (normal_mantissa m) < Zpos (normal_mantissa s) ->
        2 * Z.abs (Zpos mq * 2 ^ c * Zpos (normal_mantissa s)
                   - Zpos (normal_mantissa m) * 2 ^ 53)
        <= Zpos (normal_mantissa s)).
Proof.
  intros Hm Hs.
  pose proof (digits2_pos_le_53 m Hm) as Hdm.
  pose proof (digits2_pos_le_53 s Hs) as Hds.
  pose proof (Pos2Z.is_pos (digits2_pos m)) as Hm0.
  pose proof (Pos2Z.is_pos (digits2_pos s)) as Hs0.
  pose proof (normal_mantissa_digits _ Hdm) as Hnm.
  pose proof (normal_mantissa_digits _ Hds) as Hns.
  pose proof (digits2_pos_bounds (normal_mantissa m)) as HM.
  pose proof (digits2_pos_bounds (normal_mantissa s)) as HS.
  rewrite Hnm in HM. rewrite Hns in HS.
  assert (HM' : 2 ^ 52 <= Zpos (normal_mantissa m) < 2 ^ 53) by exact HM.
  assert (HS' : 2 ^ 52 <= Zpos (normal_mantissa s) < 2 ^ 53) by exact HS.
  clear HM HS.
  set (dm := Zpos (digits2_pos m)) in *. set (ds := Zpos (digits2_pos s)) in *.
  set (M := Zpos (normal_mantissa m)) in *. set (S := Zpos (normal_mantissa s)) in *.
  unfold div, SFdiv, integer. fold dm ds. rewrite xorb_false_r.
  unfold SFdiv_core_binary. cbn [Zdigits2]. rewrite Hnm, Hns. fold M S.
  replace (Z.min (fexp prec emax (53 + (dm - 53) - (53 + (ds - 53)))) (dm - 53 - (ds - 53)))
    with (dm - ds - 53) by (unfold fexp, emin, prec, emax; lia).
  replace (dm - 53 - (ds - 53) - (dm - ds - 53)) with 53 by lia.
  rewrite Z.shiftl_mul_pow2 by lia.
  rewrite div_eucl_spec by lia.
  pose proof (Z.div_mod (M * 2 ^ 53) S ltac:(lia)) as D.
  pose proof (Z.mod_pos_bound (M * 2 ^ 53) S ltac:(lia)) as B.
  set (Q := M * 2 ^ 53 / S) in *. set (R := (M * 2 ^ 53) mod S) in *.
  assert (P53 : 2 ^ 53 = 2 * 2 ^ 52) by reflexivity.
  assert (P54 : 2 ^ 54 = 4 * 2 ^ 52) by reflexivity.
  assert (HQ : 2 ^ 52 <= Q < 2 ^ 54) by nia.
  assert (HQ53 : M < S -> Q < 2 ^ 53) by (intros; nia).
  assert (HQ54 : S <= M -> 2 ^ 53 <= Q) by (intros; nia).
  destruct Q as [ | q | q] eqn:EQ; try lia.
  assert (Hdq : 53 <= Zpos (digits2_pos q) <= 54).
  { destruct (Z_lt_le_dec (Zpos q) (2 ^ 53)).
    - rewrite (digits2_pos_unique q 53); [lia | ]. change (2 ^ (53 - 1)) with (2 ^ 52). lia.
    - rewrite (digits2_pos_unique q 54); [lia | ]. change (2 ^ (54 - 1)) with (2 ^ 53). lia. }
  destruct (binary_round_aux_quotient sg q S R (dm - ds - 53) B Hdq ltac:(lia))
    as (mq & e' & Hr & Hdmq & He' & H53 & H54).
  exists mq, (e' - (dm - ds - 53)).
  replace (dm - ds - 53 + (e' - (dm - ds - 53))) with e' by lia.
  replace (M * 2 ^ 53) with (Zpos q * S + R) by lia.
  split; [exact Hr | ]. split; [exact Hdmq | ]. split; [lia | ].
  assert (Hcase : Zpos (digits2_pos q) = 53 \/ Zpos (digits2_pos q) = 54) by lia.
  split.
  - destruct Hcase as [Hc | Hc]; [specialize (H53 Hc); lia | exact (H54 Hc)].
  - intros HMS. apply H53.
    apply digits2_pos_unique. change (2 ^ (53 - 1)) with (2 ^ 52). lia.
Qed.

Lemma mantissa_unique (r M a b : Z) :
  2 ^ 52 <= r < 2 ^ 53 -> 2 ^ 52 <= M < 2 ^ 53 -> 0 <= a -> 0 <= b ->
  r * 2 ^ a = M * 2 ^ b -> a = b /\ r = M.
Proof.
  assert (Hlt : forall r M a b,
             2 ^ 52 <= r < 2 ^ 53 -> 2 ^ 52 <= M < 2 ^ 53 -> 0 <= a < b ->
             r * 2 ^ a = M * 2 ^ b -> False).
  { clear. intros r M a b Hr HM Hab H.
    replace b with (b - a + a) in H by lia.
    rewrite Z.pow_add_r, Z.mul_assoc in H by lia.
    apply Z.mul_reg_r in H; [ | apply Z.pow_nonzero; lia].
    pose proof (Z.pow_le_mono_r 2 1 (b - a) ltac:(lia) ltac:(lia)) as Hp.
    change (2 ^ 1) with 2 in Hp. change (2 ^ 53) with (2 * 2 ^ 52) in *. nia. }
  intros Hr HM Ha Hb H.
  destruct (Z.lt_trichotomy a b) as [Hab | [Hab | Hab]].
  - exfalso. apply (Hlt r M a b); auto with zarith.
  - subst b. split; [reflexivity | ].
    apply Z.mul_reg_r in H; [exact H | apply Z.pow_nonzero; lia].
  - exfalso. apply (Hlt M r b a); auto with zarith.
Qed.

Lemma mul_div_integer (sg : bool) (m s : positive) :
  Zpos m < 2 ^ 53 -> Zpos s < 2 ^ 53 ->
  exists (mq : positive) (c : Z) (r : positive) (a : Z),
    div (integer sg m) (integer false s)
    = S754_finite sg mq (Zpos (digits2_pos m) - Zpos (digits2_pos s) - 53 + c)
    /\ mul (div (integer sg m) (integer false s)) (integer false s)
       = S754_finite sg r (Zpos (digits2_pos m) - 106 + a)
    /\ 0 <= c /\ 0 <= a
    /\ Zpos (digits2_pos r) = 53
    /\ Z.abs (Zpos mq * 2 ^ c * Zpos (normal_mantissa s) - Zpos (normal_mantissa m) * 2 ^ 53)
       <= Zpos (normal_mantissa s)
    /\ Z.abs (Zpos r * 2 ^ a - Zpos (normal_mantissa m) * 2 ^ 53) <= 2 ^ 53
    /\ (2 ^ 52 < Zpos (normal_mantissa m) < Zpos (normal_mantissa s) ->
        Zpos r * 2 ^ a = Zpos (normal_mantissa m) * 2 ^ 53).
Proof.
  intros Hm Hs.
  destruct (div_integer_any sg m s Hm Hs) as (mq & c & Hdiv & Hdq & Hc & HA & HB).
  pose proof (digits2_pos_le_53 m Hm) as Hdm.
  pose proof (digits2_pos_le_53 s Hs) as Hds.
  pose proof (Pos2Z.is_pos (digits2_pos m)) as Hm0.
  pose proof (Pos2Z.is_pos (digits2_pos s)) as Hs0.
  pose proof (digits2_pos_bounds (normal_mantissa m)) as HM.
  pose proof (digits2_pos_bounds (normal_mantissa s)) as HS.
  pose proof (digits2_pos_bounds mq) as HQ.
  rewrite (normal_mantissa_digits _ Hdm) in HM.
  rewrite (normal_mantissa_digits _ Hds) in HS.
  rewrite Hdq in HQ.
  assert (HM' : 2 ^ 52 <= Zpos (normal_mantissa m) < 2 ^ 53) by exact HM.
  assert (HS' : 2 ^ 52 <= Zpos (normal_mantissa s) < 2 ^ 53) by exact HS.
  assert (HQ' : 2 ^ 52 <= Zpos mq < 2 ^ 53) by exact HQ.
  clear HM HS HQ.
  set (dm := Zpos (digits2_pos m)) in *. set (ds := Zpos (digits2_pos s)) in *.
  set (M := Zpos (normal_mantissa m)) in *. set (S := Zpos (normal_mantissa s)) in *.
  rewrite Hdiv. unfold mul, SFmul, integer at 1. fold ds S. rewrite xorb_false_r.
  set (P := (mq * normal_mantissa s)%positive).
  assert (HP : Zpos P = Zpos mq * S) by (unfold P, S; apply Pos2Z.inj_mul).
  assert (P104 : 2 ^ 104 = 2 ^ 52 * 2 ^ 52) by reflexivity.
  assert (P106 : 2 ^ 106 = 2 ^ 53 * 2 ^ 53) by reflexivity.
  assert (HPb : 2 ^ 104 <= Zpos P < 2 ^ 106) by nia.
  assert (Hk : exists k, Zpos (digits2_pos P) = k + 53 /\ (k = 52 \/ k = 53)
                         /\ 2 ^ (k + 52) <= Zpos P < 2 ^ (k + 53)).
  { destruct (Z_lt_le_dec (Zpos P) (2 ^ 105)).
    - exists 52. rewrite (digits2_pos_unique P 105); [ | split; [exact (proj1 HPb) | assumption]].
      repeat split; lia.
    - exists 53. rewrite (digits2_pos_unique P 106); [ | split; [assumption | exact (proj2 HPb)]].
      repeat split; lia. }
  destruct Hk as (k & HdP & Hk & HPk).
  destruct (binary_round_aux_wide sg P (dm - ds - 53 + c + (ds - 53)))
    as (r & e'' & Hr & Hdr & He'' & Hval).
  { rewrite HdP. lia. }
  { rewrite HdP. lia. }
  rewrite HdP in He'', Hval. replace (k + 53 - 53) with k in He'', Hval by lia.
  pose proof (round_shift_error (Zpos P) k ltac:(lia) ltac:(lia)) as Herr.
  set (w := round_shift (Zpos P) k) in *.
  exists mq, c, r, (e'' - (dm - ds - 53 + c + (ds - 53)) + c).
  split; [reflexivity | ].
  split; [rewrite Hr; f_equal; lia | ].
  split; [lia | ]. split; [lia | ]. split; [exact Hdr | ]. split; [exact HA | ].
  rewrite Z.pow_add_r, Z.mul_assoc, Hval by lia.
  clear Hval Hr He'' Hdiv.
  assert (Hc3 : c = 0 \/ c = 1 \/ c = 2) by lia.
  rewrite HP in *.
  replace (Zpos mq * 2 ^ c * S) with (Zpos mq * S * 2 ^ c) in * by ring.
  destruct Hk as [-> | ->]; destruct Hc3 as [-> | [-> | ->]];
    change (2 ^ 0) with 1 in *; change (2 ^ 1) with 2 in *; change (2 ^ 2) with 4 in *;
    change (2 ^ (52 + 52)) with (2 ^ 104) in *; change (2 ^ (52 + 53)) with (2 ^ 105) in *;
    change (2 ^ (53 + 52)) with (2 ^ 105) in *; change (2 ^ (53 + 53)) with (2 ^ 106) in *;
    set (Y := Zpos mq * S) in *; clearbody Y w M S;
    split; intros; lia.
Qed.

(** *** Numbers as rationals *)

Lemma pow2_pos (e : Z) : (0 < 2 ^ e)%Q.
Proof. apply Qpower_0_lt. reflexivity. Qed.

Lemma pow2_nonneg (e : Z) : (0 <= 2 ^ e)%Q.
Proof. apply Qlt_le_weak, pow2_pos. Qed.

Lemma pow2_add (a b : Z) : (2 ^ (a + b) == 2 ^ a * 2 ^ b)%Q.
Proof. apply Qpower_plus. discriminate. Qed.

Lemma inject_Z_pow2 (x : Z) : 0 <= x -> (inject_Z (2 ^ x) == 2 ^ x)%Q.
Proof. intros Hx. rewrite Zpower_Qpower by exact Hx. reflexivity. Qed.

Lemma dyadic_shift (z x t : Z) :
  0 <= x -> (inject_Z (z * 2 ^ x) * 2 ^ t == inject_Z z * 2 ^ (x + t))%Q.
Proof.
  intros Hx. rewrite inject_Z_mult, inject_Z_pow2, pow2_add by exact Hx. ring.
Qed.

Lemma cond_Zopp_mul (sg : bool) (u v : Z) : cond_Zopp sg (u * v) = cond_Zopp sg u * v.
Proof. destruct sg; cbn [cond_Zopp]; ring. Qed.

Lemma dyadic_diff (sg : bool) (u v b t : Z) :
  Z.abs (u - v) <= b ->
  (Qabs (inject_Z (cond_Zopp sg u) * 2 ^ t - inject_Z (cond_Zopp sg v) * 2 ^ t)
   <= inject_Z b * 2 ^ t)%Q.
Proof.
  intros H.
  setoid_replace (inject_Z (cond_Zopp sg u) * 2 ^ t - inject_Z (cond_Zopp sg v) * 2 ^ t)%Q
    with (inject_Z (cond_Zopp sg u + - cond_Zopp sg v) * 2 ^ t)%Q
    by (rewrite inject_Z_plus, inject_Z_opp; ring).
  rewrite Qabs_Qmult, (Qabs_pos (2 ^ t)) by apply pow2_nonneg.
  apply Qmult_le_compat_r; [ | apply pow2_nonneg].
  change (inject_Z (Z.abs (cond_Zopp sg u + - cond_Zopp sg v)) <= inject_Z b)%Q.
  rewrite <- Zle_Qle. destruct sg; cbn [cond_Zopp]; lia.
Qed.

Lemma digits2_pos_log2 (p : positive) : Zpos (digits2_pos p) = Z.log2 (Zpos p) + 1.
Proof.
  pose proof (digits2_pos_bounds p) as H.
  pose proof (Pos2Z.is_pos (digits2_pos p)) as H0.
  rewrite (Z.log2_unique (Zpos p) (Zpos (digits2_pos p) - 1)); [lia | lia | ].
  replace (Z.succ (Zpos (digits2_pos p) - 1)) with (Zpos (digits2_pos p)) by lia. exact H.
Qed.

Lemma significand_integer (sg : bool) (p : positive) :
  Zpos p < 2 ^ 53 -> significand (cond_Zopp sg (Zpos p)) = Zpos (normal_mantissa p).
Proof.
  intros Hp. pose proof (digits2_pos_le_53 p Hp) as Hd.
  rewrite normal_mantissa_value by exact Hd. unfold significand.
  replace (Z.abs (cond_Zopp sg (Zpos p))) with (Zpos p) by (destruct sg; reflexivity).
  rewrite digits2_pos_log2. f_equal. f_equal. lia.
Qed.

(** The capacity stored for the integer [p] and the length read back, as
    rationals. *)
Lemma length_values (sg : bool) (p ps : positive) :
  Zpos p < 2 ^ 53 -> Zpos ps < 2 ^ 53 ->
  exists c r : Q,
    to_Q (div (integer sg p) (integer false ps)) = Some c
    /\ to_Q (mul (div (integer sg p) (integer false ps)) (integer false ps)) = Some r
    /\ (Qabs (c * inject_Z (Zpos ps) - inject_Z (cond_Zopp sg (Zpos p)))
        <= inject_Z (Zpos ps) * 2 ^ (Z.log2 (Zpos p) - Z.log2 (Zpos ps) - 53))%Q
    /\ (Qabs (r - inject_Z (cond_Zopp sg (Zpos p))) <= 2 ^ (Z.log2 (Zpos p) - 52))%Q
    /\ (2 ^ 52 < Zpos (normal_mantissa p) < Zpos (normal_mantissa ps) ->
        mul (div (integer sg p) (integer false ps)) (integer false ps) = integer sg p).
Proof.
  intros Hp Hps.
  destruct (mul_div_integer sg p ps Hp Hps)
    as (mq & cc & r & a & Hdiv & Hmul & Hcc & Ha & Hdr & HA & HW & HE).
  pose proof (digits2_pos_le_53 p Hp) as Hdm.
  pose proof (digits2_pos_le_53 ps Hps) as Hds.
  pose proof (normal_mantissa_value p Hdm) as HM.
  pose proof (normal_mantissa_value ps Hds) as HS.
  pose proof (digits2_pos_log2 p) as Lp.
  pose proof (digits2_pos_log2 ps) as Ls.
  pose proof (Z.log2_nonneg (Zpos p)) as Lp0.
  pose proof (Z.log2_nonneg (Zpos ps)) as Ls0.
  rewrite Lp, Ls in *.
  set (lp := Z.log2 (Zpos p)) in *. set (ls := Z.log2 (Zpos ps)) in *.
  set (M := Zpos (normal_mantissa p)) in *. set (S := Zpos (normal_mantissa ps)) in *.
  set (t := lp - 105).
  assert (Hm : (inject_Z (cond_Zopp sg (Zpos p))
                == inject_Z (cond_Zopp sg (M * 2 ^ 53)) * 2 ^ t)%Q).
  { rewrite HM, <- Z.mul_assoc, <- Z.pow_add_r, cond_Zopp_mul, dyadic_shift by lia.
    replace (53 - (lp + 1) + 53 + t) with 0 by (unfold t; lia).
    change (2 ^ 0)%Q with 1%Q. ring. }
  rewrite Hmul, Hdiv. cbn [to_Q].
  eexists. eexists. split; [reflexivity | ]. split; [reflexivity | ].
  split; [ | split].
  - setoid_replace (inject_Z (cond_Zopp sg (Zpos mq)) * 2 ^ (lp + 1 - (ls + 1) - 53 + cc)
                    * inject_Z (Zpos ps))%Q
      with (inject_Z (cond_Zopp sg (Zpos mq * 2 ^ cc * S)) * 2 ^ t)%Q.
    + setoid_replace (inject_Z (Zpos ps) * 2 ^ (lp - ls - 53))%Q
        with (inject_Z S * 2 ^ t)%Q.
      * rewrite Hm. apply dyadic_diff. exact HA.
      * rewrite HS, dyadic_shift by lia.
        replace (53 - (ls + 1) + t) with (lp - ls - 53) by (unfold t; lia). reflexivity.
    + rewrite !cond_Zopp_mul, HS, Z.mul_assoc, !inject_Z_mult, !inject_Z_pow2 by lia.
      replace (lp + 1 - (ls + 1) - 53 + cc) with (t + cc + (52 - ls)) by (unfold t; lia).
      replace (53 - (ls + 1)) with (52 - ls) by lia.
      rewrite !pow2_add.
      ring.
  - rewrite Hm.
    setoid_replace (inject_Z (cond_Zopp sg (Zpos r)) * 2 ^ (lp + 1 - 106 + a))%Q
      with (inject_Z (cond_Zopp sg (Zpos r * 2 ^ a)) * 2 ^ t)%Q
      by (rewrite cond_Zopp_mul, dyadic_shift by lia;
          replace (a + t) with (lp + 1 - 106 + a) by (unfold t; lia); reflexivity).
    setoid_replace (2 ^ (lp - 52))%Q with (inject_Z (2 ^ 53) * 2 ^ t)%Q
      by (rewrite <- (Z.mul_1_l (2 ^ 53)), dyadic_shift by lia;
          replace (53 + t) with (lp - 52) by (unfold t; lia); ring).
    apply dyadic_diff. exact HW.
  - intros Hcase. specialize (HE Hcase).
    pose proof (digits2_pos_bounds r) as Hr. rewrite Hdr in Hr.
    pose proof (digits2_pos_bounds (normal_mantissa p)) as Hn.
    rewrite (normal_mantissa_digits p) in Hn by lia. fold M in Hn.
    destruct (mantissa_unique (Zpos r) M a 53 Hr Hn Ha ltac:(lia) HE) as [-> Heq].
    unfold integer. rewrite Lp. fold lp. f_equal.
    + apply Pos2Z.inj. exact Heq.
    + lia.
Qed.

(** C10, as the code has it. The setter stores the binary64 quotient of the
    duration by the segment length, not floored, and the getter returns its
    binary64 product with the segment length. For a segment length that is an
    integer [1 <= s < 2^53] and every duration that is an integer [m] with
    [|m| < 2^53]:
    - the stored capacity [c] is a finite number within
      [2^(log2 |m| - log2 s - 53)] of the exact quotient [m / s]
      (written [|c * s - m| <= s * 2^(log2 |m| - log2 s - 53)]), so it is the
      quotient to 53 significant bits and not its integer part;
    - the length read back is a finite number that differs from [m] by at
      most one unit in the last place of [m], [2^(log2 |m| - 52)];
    - it is exactly [m], and the capacity exactly [k], when [m = k * s];
    - it is exactly [m] when the significand of [m] lies strictly between 1
      and the significand of [s]. *)
Theorem length_roundtrip_within_ulp (m s : Z) (t : ProtectTimeshiftBuffer) :
  1 <= s < 2 ^ 53 -> Z.abs m < 2 ^ 53 ->
  _segmentLength t = of_Z s ->
  let t' := set_length (of_Z m) t in
  (exists c r : Q,
     to_Q (bufferSize t') = Some c /\ to_Q (get_length t') = Some r
     /\ (Qabs (c * inject_Z s - inject_Z m)
         <= inject_Z s * 2 ^ (Z.log2 (Z.abs m) - Z.log2 s - 53))%Q
     /\ (Qabs (r - inject_Z m) <= ulp m)%Q)
  /\ (forall k : Z, m = k * s -> bufferSize t' = of_Z k /\ get_length t' = of_Z m)
  /\ (2 ^ 52 < significand m < significand s -> get_length t' = of_Z m).
Proof.
  intros Hs Hm Hlen t'.
  assert (Hb : bufferSize t' = div (of_Z m) (of_Z s)).
  { unfold t', set_length. fields. rewrite Hlen. reflexivity. }
  assert (Hg : get_length t' = mul (div (of_Z m) (of_Z s)) (of_Z s)).
  { unfold get_length. rewrite Hb. unfold t', set_length. fields. rewrite Hlen. reflexivity. }
  rewrite Hb, Hg. clear Hb Hg t' Hlen t.
  split; [ | split].
  - destruct s as [ | ps | ps]; try lia.
    rewrite (of_Z_integer (Zpos ps)), (of_Z_integer m) by lia.
    destruct m as [ | p | p].
    + exists 0%Q, 0%Q. split; [reflexivity | ]. split; [reflexivity | ].
      split.
      * setoid_replace (0 * inject_Z (Zpos ps) - inject_Z 0)%Q with 0%Q by ring.
        apply Qmult_le_0_compat; [ | apply pow2_nonneg].
        change 0%Q with (inject_Z 0). rewrite <- Zle_Qle. lia.
      * setoid_replace (0 - inject_Z 0)%Q with 0%Q by ring. apply pow2_nonneg.
    + destruct (length_values false p ps Hm ltac:(lia)) as (c & r & Hc & Hr & Hcb & Hrb & _).
      exists c, r. repeat split; assumption.
    + destruct (length_values true p ps Hm ltac:(lia)) as (c & r & Hc & Hr & Hcb & Hrb & _).
      exists c, r. repeat split; assumption.
  - intros k ->. destruct (div_mul_of_Z k s Hs Hm) as [Hdiv Hmul].
    rewrite Hdiv. split; [reflexivity | exact Hmul].
  - intros Hcase.
    destruct s as [ | ps | ps]; try lia.
    rewrite (of_Z_integer (Zpos ps)), (of_Z_integer m) by lia.
    destruct m as [ | p | p].
    + unfold significand in Hcase. cbn in Hcase. lia.
    + pose proof (significand_integer false p Hm) as Ep.
      pose proof (significand_integer false ps ltac:(lia)) as Es.
      cbn [cond_Zopp Z.opp] in Ep, Es. rewrite Ep, Es in Hcase.
      destruct (length_values false p ps Hm ltac:(lia)) as (c & r & _ & _ & _ & _ & He).
      exact (He Hcase).
    + pose proof (significand_integer true p Hm) as Ep.
      pose proof (significand_integer false ps ltac:(lia)) as Es.
      cbn [cond_Zopp Z.opp] in Ep, Es. rewrite Ep, Es in Hcase.
      destruct (length_values true p ps Hm ltac:(lia)) as (c & r & _ & _ & _ & _ & He).
      exact (He Hcase).
Qed.

Lemma length_roundtrip_within_ulp_witness :
  let t := new (of_Z 100) None in
  let t' := set_length (of_Z 7) t in
  (1 <= 100 < 2 ^ 53 /\ Z.abs 7 < 2 ^ 53 /\ _segmentLength t = of_Z 100)
  /\ (exists c r : Q,
        to_Q (bufferSize t') = Some c /\ to_Q (get_length t') = Some r
        /\ (Qabs (c * inject_Z 100 - inject_Z 7)
            <= inject_Z 100 * 2 ^ (Z.log2 (Z.abs 7) - Z.log2 100 - 53))%Q
        /\ (Qabs (r - inject_Z 7) <= ulp 7)%Q)
  /\ (forall k : Z, 7 = k * 100 -> bufferSize t' = of_Z k /\ get_length t' = of_Z 7)
  /\ (2 ^ 52 < significand 7 < significand 100 -> get_length t' = of_Z 7).
Proof.
  intros t t'.
  assert (Hs : 1 <= 100 < 2 ^ 53) by lia.
  assert (Hm : Z.abs 7 < 2 ^ 53) by (cbn; lia).
  split; [split; [exact Hs | split; [exact Hm | reflexivity]] | ].
  exact (length_roundtrip_within_ulp 7 100 t Hs Hm eq_refl).
Defined.

(** C10 as stated fails: with a segment length of 100 ms, a length set to 7 ms
    is read back as 7.000000000000001 ms, which is not 7. *)
Lemma length_roundtrip_7_100 :
  let t := set_length (of_Z 7) (new (of_Z 100) None) in
  bufferSize t = S754_finite false 5044031582654956 (-56)
  /\ get_length t = S754_finite false 7881299347898369 (-50)
  /\ of_Z 7 = S754_finite false 7881299347898368 (-50)
  /\ eqb (get_length t) (of_Z 7) = false.
Proof. vm_compute. repeat split. Qed.

(** The capacity is not floored when it is set: a length of 250 ms with
    segments of 100 ms is a capacity of 2.5, read back as 250 ms. *)
Lemma length_250_100 :
  let t := set_length (of_Z 250) (new (of_Z 100) None) in
  bufferSize t = S754_finite false 5629499534213120 (-51)
  /\ get_length t = of_Z 250.
Proof. vm_compute. split; reflexivity. Qed.

(** A duration whose significand is below that of the segment length is read
    back as it was set, multiple or not: 150 ms with segments of 100 ms. *)
Lemma length_roundtrip_150_100 :
  let t := set_length (of_Z 150) (new (of_Z 100) None) in
  2 ^ 52 < significand 150 < significand 100
  /\ bufferSize t = S754_finite false 6755399441055744 (-52)
  /\ get_length t = of_Z 150.
Proof. vm_compute. repeat split. Qed.

(** No whole number of segments is within the bound that
    [length_roundtrip_within_ulp] gives for the capacity of 250 ms with
    segments of 100 ms: a capacity that was floored would not meet it. *)
Remark capacity_250_100_is_no_integer (z : Z) :
  ~ (Qabs (inject_Z z * inject_Z 100 - inject_Z 250)
     <= inject_Z 100 * 2 ^ (Z.log2 (Z.abs 250) - Z.log2 100 - 53))%Q.
Proof.
  intros H. rewrite <- inject_Z_mult in H.
  change (inject_Z (z * 100) - inject_Z 250)%Q
    with (inject_Z (z * 100) + inject_Z (- 250))%Q in H.
  rewrite <- inject_Z_plus in H.
  change (Qabs (inject_Z ?a)) with (inject_Z (Z.abs a)) in H.
  unfold Qle in H. cbn in H. lia.
Qed.

(** * More of the class *)

(** ** What each method leaves alone *)

Lemma same_settings_refl (st : State) : same_settings st st.
Proof. repeat split. Qed.

Lemma same_settings_trans (st1 st2 st3 : State) :
  same_settings st1 st2 -> same_settings st2 st3 -> same_settings st1 st3.
Proof.
  unfold same_settings. intros (A1 & A2 & A3 & A4 & A5) (B1 & B2 & B3 & B4 & B5).
  repeat split; congruence.
Qed.

Lemma same_wiring_refl (st : State) : same_wiring st st.
Proof. split; reflexivity. Qed.

Lemma same_wiring_trans (st1 st2 st3 : State) :
  same_wiring st1 st2 -> same_wiring st2 st3 -> same_wiring st1 st3.
Proof. unfold same_wiring. intros [A1 A2] [B1 B2]. split; congruence. Qed.

Lemma segment_handler_same (segment : Buffer) (st : State) :
  same_settings st (segment_handler segment st)
  /\ same_wiring st (segment_handler segment st).
Proof.
  destruct st as [t w]. unfold segment_handler, transmit, same_settings, same_wiring.
  repeat match goal with
         | |- context [if ?c then _ else _] => destruct c eqn:?
         end; fields; repeat split.
Qed.

Lemma stop_same_settings (st : State) : same_settings st (fst (stop st)).
Proof.
  destruct st as [t w]. unfold stop, same_settings. fields. repeat split.
Qed.

Lemma call_same_settings (payload : option Buffer) (st : State) (f : Listener) :
  same_settings st (call payload st f).
Proof.
  destruct f as [ | id]; [destruct payload as [segment | ] | ]; cbn [call].
  - apply segment_handler_same.
  - apply same_settings_refl.
  - destruct st as [t w]. unfold close_handler.
    apply (stop_same_settings (t, set_errors (errors w ++ [close_message]) w)).
Qed.

Lemma calls_same_settings (payload : option Buffer) (fs : list Listener) (st : State) :
  same_settings st (fold_left (call payload) fs st).
Proof.
  revert st. induction fs as [ | f fs IH]; intros st; cbn [fold_left].
  - apply same_settings_refl.
  - eapply same_settings_trans; [apply call_same_settings | apply IH].
Qed.

Lemma dispatch_same_settings (st : State) (ev : SourceEvent) :
  same_settings st (dispatch st ev).
Proof.
  destruct ev as [h segment | h | h init]; cbn [dispatch].
  - apply calls_same_settings.
  - apply calls_same_settings.
  - repeat split.
Qed.

Lemma deliver_same_settings (evs : list SourceEvent) (st : State) :
  same_settings st (deliver evs st).
Proof.
  unfold deliver. revert st. induction evs as [ | ev evs IH]; intros st; cbn [fold_left].
  - apply same_settings_refl.
  - eapply same_settings_trans; [apply dispatch_same_settings | apply IH].
Qed.

(** Events never start the buffer, and they change the listeners only by
    stopping it. *)
Lemma call_wiring (payload : option Buffer) (st : State) (f : Listener) :
  _isStarted (fst (call payload st f)) = false \/ same_wiring st (call payload st f).
Proof.
  destruct f as [ | id]; [destruct payload as [segment | ] | ]; cbn [call].
  - right. apply segment_handler_same.
  - right. apply same_wiring_refl.
  - left. destruct st as [t w]. unfold close_handler, stop. fields. reflexivity.
Qed.

(** [start], step by step. *)
Lemma start_eq
    (resolution : number) (channelId lens : option number) (env : StartEnv) (st : State) :
  start resolution channelId lens env st
  = match acquired env with
    | None => (start_prepared resolution env st, false)
    | Some _ =>
        let st4 := start_awaited resolution channelId lens env st in
        if start_result env
        then ((set_isStarted true
                 (set_lens (start_lens lens (fst st))
                    (set_channel (start_channel channelId lens (fst st)) (fst st4))),
               snd st4), true)
        else (st4, false)
    end.
Proof.
  destruct st as [t w].
  unfold start, start_awaited, start_prepared, start_validated, start_channel, start_lens.
  cbn [fst snd].
  destruct (if _isStarted t then fst (stop (t, w)) else (t, w)) as [t1 w1].
  cbn [fst snd].
  destruct (acquired env) as [h | ]; [ | reflexivity].
  match goal with
  | |- context [configureTimeshiftBuffer ?s] => destruct (configureTimeshiftBuffer s) as [t3 w3]
  end.
  cbn [fst snd].
  match goal with
  | |- context [deliver ?evs ?s] => destruct (deliver evs s) as [t4 w4]
  end.
  reflexivity.
Qed.

Lemma stop_not_started (st : State) : _isStarted (fst (fst (stop st))) = false.
Proof. destruct st as [t w]. unfold stop. fields. reflexivity. Qed.

Lemma calls_wiring (payload : option Buffer) (fs : list Listener) (st : State) :
  _isStarted (fst (fold_left (call payload) fs st)) = false
  \/ same_wiring st (fold_left (call payload) fs st).
Proof.
  revert st. induction fs as [ | f fs IH]; intros st; cbn [fold_left].
  - right. apply same_wiring_refl.
  - destruct (call_wiring payload st f) as [Hoff | Hsame].
    + left. apply calls_idle. exact Hoff.
    + destruct (IH (call payload st f)) as [Hoff | Hsame'].
      * left. exact Hoff.
      * right. eapply same_wiring_trans; eassumption.
Qed.

Lemma dispatch_wiring (st : State) (ev : SourceEvent) :
  _isStarted (fst (dispatch st ev)) = false \/ same_wiring st (dispatch st ev).
Proof.
  destruct ev as [h segment | h | h init]; cbn [dispatch].
  - apply calls_wiring.
  - apply calls_wiring.
  - right. split; reflexivity.
Qed.

Lemma deliver_wiring (evs : list SourceEvent) (st : State) :
  _isStarted (fst (deliver evs st)) = false \/ same_wiring st (deliver evs st).
Proof.
  revert st. induction evs as [ | ev evs IH]; intros st.
  - right. apply same_wiring_refl.
  - change (deliver (ev :: evs) st) with (deliver evs (dispatch st ev)).
    destruct (dispatch_wiring st ev) as [Hoff | Hsame].
    + left. apply deliver_idle. exact Hoff.
    + destruct (IH (dispatch st ev)) as [Hoff | Hsame'].
      * left. exact Hoff.
      * right. eapply same_wiring_trans; eassumption.
Qed.

(** *** The parts of [start] *)

Lemma start_prepared_settings (resolution : number) (env : StartEnv) (st : State) :
  let p := start_prepared resolution env st in
  _isStarted (fst p) = false
  /\ livestream (fst p) = acquired env
  /\ _buffer (fst p) = []
  /\ _channel (fst p) = _channel (fst st)
  /\ _lens (fst p) = _lens (fst st)
  /\ eventHandlers (fst p) = eventHandlers (fst st)
  /\ (_segmentLength (fst p) = _segmentLength (fst st)
      \/ _segmentLength (fst p) = resolution)
  /\ _isTransmitting (fst p) = _isTransmitting (fst st)
  /\ bufferSize (fst p) = bufferSize (fst st).
Proof.
  intros p. subst p. unfold start_prepared.
  set (st1 := if _isStarted (fst st) then fst (stop st) else st).
  assert (H1 : _isStarted (fst st1) = false /\ same_settings st st1
               /\ _isTransmitting (fst st1) = _isTransmitting (fst st)
               /\ bufferSize (fst st1) = bufferSize (fst st)).
  { subst st1. destruct (_isStarted (fst st)) eqn:Hs.
    - split; [apply stop_not_started | ]. split; [apply stop_same_settings | ].
      destruct st as [t w]. unfold stop. fields. split; reflexivity.
    - split; [exact Hs | ]. split; [apply same_settings_refl | split; reflexivity]. }
  destruct H1 as (Hoff & (S1 & S2 & S3 & S4 & S5) & Htx & Hsize).
  destruct st1 as [t1 w1]. fields. unfold start_validated.
  destruct (fragmentLength env) as [fl | ];
    [destruct (truthy fl); [destruct (_ || _) | ] | ];
    fields; repeat split; try assumption; try (left; assumption); right; reflexivity.
Qed.

Lemma start_prepared_emitters (resolution : number) (env : StartEnv) (st : State) :
  _isStarted (fst st) = false ->
  emitters (snd (start_prepared resolution env st)) = emitters (snd st).
Proof. intros H. unfold start_prepared. rewrite H. reflexivity. Qed.

Lemma update_other {A : Type} (f : Handle -> A) (h h' : Handle) (v : A) :
  h' <> h -> update f h v h' = f h'.
Proof.
  intros H. unfold update. destruct (Nat.eqb_spec h' h); [contradiction | reflexivity].
Qed.

Lemma configureTimeshiftBuffer_attaches
    (st : State) (h : Handle) (rest : list (string * Listener)) :
  livestream (fst st) = Some h ->
  eventHandlers (fst st) = ("segment"%string, SegmentHandler) :: rest ->
  let st' := configureTimeshiftBuffer st in
  let f := CloseHandler (closures (snd st)) in
  eventHandlers (fst st') = ("segment"%string, SegmentHandler) :: assign "close" f rest
  /\ emitters (snd st') h
     = emitters (snd st) h ++ [("close"%string, f); ("segment"%string, SegmentHandler)]
  /\ (forall h', h' <> h -> emitters (snd st') h' = emitters (snd st) h')
  /\ _isStarted (fst st') = _isStarted (fst st)
  /\ livestream (fst st') = Some h
  /\ _channel (fst st') = _channel (fst st)
  /\ _lens (fst st') = _lens (fst st)
  /\ _segmentLength (fst st') = _segmentLength (fst st)
  /\ _buffer (fst st') = _buffer (fst st)
  /\ started (snd st') = started (snd st)
  /\ stopped (snd st') = stopped (snd st)
  /\ emitted (snd st') = emitted (snd st).
Proof.
  destruct st as [t w]. cbn zeta. fields. intros Hl Hh.
  unfold configureTimeshiftBuffer. rewrite Hl, Hh. fields.
  cbn [assign fst String.eqb Ascii.eqb Bool.eqb find snd]. fields.
  rewrite !update_same. unfold on. rewrite <- app_assoc. cbn [app].
  repeat split; try assumption.
  intros h' Hne. rewrite !update_other by exact Hne. reflexivity.
Qed.

Lemma assign_close_two (f : Listener) (rest : list (string * Listener)) :
  rest = [] \/ (exists i, rest = [("close"%string, CloseHandler i)]) ->
  assign "close" f rest = [("close"%string, f)].
Proof. intros [H | [i H]]; subst rest; reflexivity. Qed.

Lemma start_prepared_world (resolution : number) (env : StartEnv) (st : State) :
  let p := start_prepared resolution env st in
  closures (snd p) = closures (snd st)
  /\ started (snd p) = started (snd st)
  /\ resets (snd p) = resets (snd st)
  /\ emitted (snd p) = emitted (snd st)
  /\ stopped (snd p)
     = if _isStarted (fst st)
       then stopped (snd st) ++ [(_channel (fst st), _lens (fst st))]
       else stopped (snd st).
Proof.
  destruct st as [t w]. cbn zeta. unfold start_prepared. fields.
  destruct (_isStarted t) eqn:Hs; [ | repeat split].
  unfold stop. rewrite Hs. destruct (livestream t); fields; repeat split.
Qed.

Lemma start_awaited_wiring
    (resolution : number) (channelId lens : option number) (env : StartEnv)
    (st : State) (h : Handle) (rest : list (string * Listener)) :
  acquired env = Some h ->
  eventHandlers (fst st) = ("segment"%string, SegmentHandler) :: rest ->
  let p := start_prepared resolution env st in
  let a := start_awaited resolution channelId lens env st in
  let f := CloseHandler (closures (snd st)) in
  _isStarted (fst a) = false
  /\ livestream (fst a) = Some h
  /\ eventHandlers (fst a) = ("segment"%string, SegmentHandler) :: assign "close" f rest
  /\ emitters (snd a) h
     = emitters (snd p) h ++ [("close"%string, f); ("segment"%string, SegmentHandler)]
  /\ (forall h', h' <> h -> emitters (snd a) h' = emitters (snd p) h')
  /\ _channel (fst a) = _channel (fst st)
  /\ _lens (fst a) = _lens (fst st)
  /\ _segmentLength (fst a) = _segmentLength (fst p).
Proof.
  intros Hacq Hh p a f.
  destruct (start_prepared_settings resolution env st)
    as (Poff & Plive & _ & Pch & Plens & Phandlers & _).
  destruct (start_prepared_world resolution env st) as (Pclos & _).
  fold p in Poff, Plive, Pch, Plens, Phandlers, Pclos.
  rewrite Hacq in Plive. rewrite Hh in Phandlers.
  destruct (configureTimeshiftBuffer_attaches p h rest Plive Phandlers)
    as (C1 & C2 & C3 & C4 & C5 & C6 & C7 & C8 & _).
  rewrite Pclos in C1, C2. fold f in C1, C2.
  subst a. unfold start_awaited. fold p.
  set (st3 := configureTimeshiftBuffer p) in *.
  set (s := (fst st3, _)).
  assert (Hs : _isStarted (fst s) = false) by (subst s; fields; congruence).
  destruct (deliver_idle (while_starting env) s Hs) as [Doff Demit].
  destruct (deliver_same_settings (while_starting env) s) as (D1 & D2 & D3 & D4 & D5).
  subst s. fields.
  repeat split; try congruence.
  intros h' Hne. rewrite Demit. apply C3. exact Hne.
Qed.

(** ** What holds after any calls and events *)

Lemma sound_frame (resolution : number) (st st' : State) :
  same_settings st st' ->
  _isStarted (fst st') = false \/ same_wiring st st' ->
  sound resolution st -> sound resolution st'.
Proof.
  intros (S1 & S2 & S3 & S4 & S5) Hw (I1 & I2 & I3 & I4).
  unfold sound. rewrite S1, S2, S3, S4, S5.
  repeat split; try assumption.
  intros Hon. destruct Hw as [Hoff | [W1 W2]]; [congruence | ].
  rewrite W2. apply I4. congruence.
Qed.

Lemma stop_sound (resolution : number) (st : State) :
  sound resolution st -> sound resolution (fst (stop st)).
Proof.
  apply sound_frame; [apply stop_same_settings | left; apply stop_not_started].
Qed.

Lemma deliver_sound (resolution : number) (evs : list SourceEvent) (st : State) :
  sound resolution st -> sound resolution (deliver evs st).
Proof.
  apply sound_frame; [apply deliver_same_settings | apply deliver_wiring].
Qed.

Lemma listeners_attached (e : Emitter) (f : Listener) :
  In SegmentHandler
    (listeners "segment" (e ++ [("close"%string, f); ("segment"%string, SegmentHandler)])).
Proof.
  change (e ++ [("close"%string, f); ("segment"%string, SegmentHandler)])
    with (e ++ [("close"%string, f)] ++ [("segment"%string, SegmentHandler)]).
  rewrite app_assoc. fold (on "close" f e). fold (on "segment" SegmentHandler (on "close" f e)).
  rewrite listeners_on. apply in_or_app. right. left. reflexivity.
Qed.

Lemma start_channel_lens (channelId lens : option number) (t : ProtectTimeshiftBuffer) :
  start_lens lens t <> None -> start_channel channelId lens t = of_Z 0.
Proof.
  unfold start_channel. destruct (start_lens lens t); [reflexivity | congruence].
Qed.

Lemma start_sound
    (resolution : number) (channelId lens : option number) (env : StartEnv) (st : State) :
  sound resolution st ->
  sound resolution (fst (start resolution channelId lens env st)).
Proof.
  intros (I1 & I2 & (rest & I3) & I4). rewrite start_eq.
  destruct (start_prepared_settings resolution env st)
    as (Poff & Plive & _ & Pch & Plens & Phandlers & Pseg & _).
  assert (Pseg' : _segmentLength (fst (start_prepared resolution env st)) = resolution)
    by (destruct Pseg; congruence).
  destruct (acquired env) as [h | ] eqn:Hacq.
  - destruct (start_awaited_wiring resolution channelId lens env st h rest Hacq I3)
      as (A1 & A2 & A3 & A4 & A5 & A6 & A7 & A8).
    cbv zeta. destruct (start_result env); cbn [fst snd].
    + unfold sound. fields. repeat split.
      * congruence.
      * apply start_channel_lens.
      * eexists. exact A3.
      * intros _. exists h. split; [exact A2 | ]. rewrite A4. apply listeners_attached.
    + unfold sound. repeat split.
      * congruence.
      * rewrite A6, A7. exact I2.
      * eexists. exact A3.
      * congruence.
  - cbn [fst]. unfold sound. repeat split.
    + exact Pseg'.
    + rewrite Pch, Plens. exact I2.
    + exists rest. congruence.
    + congruence.
Qed.

(** The state [transmitStart] works on: the one it was called in when the
    buffer is started, the one [start()] leaves otherwise; and the state it
    leaves differs from that one, or from that one after the events of the
    wait, in nothing that [start] and [stop] manage. *)
Lemma transmitStart_frame
    (resolution : number) (senv : StartEnv) (wenv : WaitEnv) (st : State) :
  let g := if _isStarted (fst st) then st else fst (start resolution None None senv st) in
  let r := fst (transmitStart resolution senv wenv st) in
  (same_settings g r /\ same_wiring g r)
  \/ (same_settings (deliver wenv g) r /\ same_wiring (deliver wenv g) r).
Proof.
  cbv zeta. unfold transmitStart.
  destruct (_isStarted (fst st)) eqn:Hs.
  - cbn [negb]. unfold getInitSegment.
    destruct (livestream_initSegment st) as [init | ] eqn:Hi.
    + left. destruct st as [t w]. unfold transmit. fields. repeat split.
    + right. destruct (livestream_initSegment (deliver wenv st)) as [init | ];
        destruct (deliver wenv st) as [t w];
        unfold transmit, log_error, resetNvrConnection; fields; repeat split.
  - destruct (start resolution None None senv st) as [g ok]. cbn [fst].
    destruct ok; cbn [negb].
    + unfold getInitSegment.
      destruct (livestream_initSegment g) as [init | ] eqn:Hi.
      * left. destruct g as [t w]. unfold transmit. fields. repeat split.
      * right. destruct (livestream_initSegment (deliver wenv g)) as [init | ];
          destruct (deliver wenv g) as [t w];
          unfold transmit, log_error, resetNvrConnection; fields; repeat split.
    + left. destruct g as [t w]. unfold log_error, resetNvrConnection. fields.
      repeat split.
Qed.

Lemma transmitStart_sound
    (resolution : number) (senv : StartEnv) (wenv : WaitEnv) (st : State) :
  sound resolution st ->
  sound resolution (fst (transmitStart resolution senv wenv st)).
Proof.
  intros H.
  assert (Hg : sound resolution
                 (if _isStarted (fst st) then st
                  else fst (start resolution None None senv st))).
  { destruct (_isStarted (fst st)); [exact H | apply start_sound; exact H]. }
  destruct (transmitStart_frame resolution senv wenv st) as [[F1 F2] | [F1 F2]].
  - eapply sound_frame; [exact F1 | right; exact F2 | exact Hg].
  - eapply sound_frame; [exact F1 | right; exact F2 | apply deliver_sound; exact Hg].
Qed.

Lemma step_sound (resolution : number) (st : State) (c : Call) :
  sound resolution st -> sound resolution (step resolution st c).
Proof.
  intros H. destruct c as [channelId lens env | | senv wenv | | bufferMillis | evs];
    cbn [step].
  - apply start_sound. exact H.
  - apply stop_sound. exact H.
  - apply transmitStart_sound. exact H.
  - eapply sound_frame; [ | right | exact H]; repeat split.
  - eapply sound_frame; [ | right | exact H]; repeat split.
  - apply deliver_sound. exact H.
Qed.

Lemma new_sound (resolution : number) (lens0 : option number) :
  sound resolution (new resolution lens0, world0).
Proof.
  unfold sound, new. fields. repeat split.
  - exists []. reflexivity.
  - discriminate.
Qed.

Lemma run_sound (resolution : number) (calls : list Call) (st : State) :
  sound resolution st -> sound resolution (run resolution calls st).
Proof.
  unfold run. revert st. induction calls as [ | c calls IH]; intros st H; cbn [fold_left].
  - exact H.
  - apply IH. apply step_sound. exact H.
Qed.

(** ** Listeners when no start fails halfway *)

Lemma wired_frame (st st' : State) :
  same_settings st st' -> same_wiring st st' -> wired st -> wired st'.
Proof.
  intros (_ & _ & _ & S4 & S5) [W1 W2]. unfold wired.
  rewrite S4, S5, W1, W2. exact (fun H => H).
Qed.

Lemma stop_wired (st : State) : wired st -> wired (fst (stop st)).
Proof.
  destruct st as [t w]. unfold wired. fields. intros [Hshape Hw].
  unfold stop. fields. split; [exact Hshape | ].
  destruct (_isStarted t).
  - destruct Hw as (h & i & Hl & Hh & He & Hother).
    rewrite Hl, Hh. fields. intros h'.
    destruct (Nat.eq_dec h' h) as [-> | Hne].
    + rewrite update_same, He.
      cbn [fold_left fst snd]. unfold off.
      cbn [rev app remove_first is_listener fst snd String.eqb Ascii.eqb Bool.eqb
           Listener_eqb andb].
      rewrite Nat.eqb_refl. reflexivity.
    + rewrite update_other by exact Hne. apply Hother. exact Hne.
  - exact Hw.
Qed.

Lemma segment_handler_wired (segment : Buffer) (st : State) :
  wired st -> wired (segment_handler segment st).
Proof.
  destruct (segment_handler_same segment st) as [S W]. apply wired_frame; assumption.
Qed.

Lemma close_handler_wired (st : State) : wired st -> wired (close_handler st).
Proof.
  destruct st as [t w]. intros H. unfold close_handler.
  apply (stop_wired (t, set_errors (errors w ++ [close_message]) w)). exact H.
Qed.

(** In a wired state an event reaches the buffer at most once, and only from
    the livestream of a started buffer. *)
Lemma dispatch_wired_eq (st : State) (ev : SourceEvent) :
  wired st ->
  dispatch st ev
  = match ev with
    | Segment h segment =>
        if _isStarted (fst st) && livestream_is h (fst st)
        then segment_handler segment st else st
    | Close h =>
        if _isStarted (fst st) && livestream_is h (fst st)
        then close_handler st else st
    | InitSegment h init =>
        (fst st, set_initSegment (update (initSegment (snd st)) h init) (snd st))
    end.
Proof.
  destruct st as [t w]. unfold wired, livestream_is. fields. intros [_ Hw].
  destruct (_isStarted t); cbn [andb].
  - destruct Hw as (h0 & i & Hl & _ & He & Hother). rewrite Hl.
    destruct ev as [h segment | h | h init]; cbn [dispatch]; fields;
      try reflexivity;
      (destruct (Nat.eqb_spec h0 h) as [<- | Hne];
       [rewrite He; reflexivity | rewrite Hother by congruence; reflexivity]).
  - destruct ev as [h segment | h | h init]; cbn [dispatch]; fields;
      try rewrite Hw; reflexivity.
Qed.

Lemma dispatch_wired (st : State) (ev : SourceEvent) : wired st -> wired (dispatch st ev).
Proof.
  intros H. rewrite dispatch_wired_eq by exact H.
  destruct ev as [h segment | h | h init].
  - destruct (_ && _); [apply segment_handler_wired | ]; exact H.
  - destruct (_ && _); [apply close_handler_wired | ]; exact H.
  - eapply wired_frame; [ | | exact H]; repeat split.
Qed.

Lemma deliver_wired (evs : list SourceEvent) (st : State) :
  wired st -> wired (deliver evs st).
Proof.
  unfold deliver. revert st. induction evs as [ | ev evs IH]; intros st H; cbn [fold_left].
  - exact H.
  - apply IH. apply dispatch_wired. exact H.
Qed.

Lemma start_wired
    (resolution : number) (channelId lens : option number) (env : StartEnv) (st : State) :
  completes env = true ->
  wired st -> wired (fst (start resolution channelId lens env st)).
Proof.
  intros Hc H. rewrite start_eq.
  set (st1 := if _isStarted (fst st) then fst (stop st) else st).
  assert (H1 : wired st1 /\ _isStarted (fst st1) = false).
  { subst st1. destruct (_isStarted (fst st)) eqn:Hs.
    - split; [apply stop_wired; exact H | apply stop_not_started].
    - split; assumption. }
  destruct H1 as [[Hshape1 Hw1] Hoff1]. rewrite Hoff1 in Hw1.
  assert (Hempty : forall h', emitters (snd (start_prepared resolution env st)) h' = []).
  { intros h'. unfold start_prepared. cbn [snd]. apply Hw1. }
  clearbody st1.
  destruct H as [Hshape _].
  assert (Hrest : exists rest,
             eventHandlers (fst st) = ("segment"%string, SegmentHandler) :: rest
             /\ (rest = [] \/ exists i, rest = [("close"%string, CloseHandler i)])).
  { destruct Hshape as [Hs | [i Hs]]; rewrite Hs; eexists; split; try reflexivity.
    - left. reflexivity.
    - right. exists i. reflexivity. }
  destruct Hrest as (rest & Hh & Hrest).
  destruct (start_prepared_settings resolution env st)
    as (Poff & Plive & _ & _ & _ & Phandlers & _).
  unfold completes in Hc.
  destruct (acquired env) as [h | ] eqn:Hacq.
  - destruct (start_awaited_wiring resolution channelId lens env st h rest Hacq Hh)
      as (A1 & A2 & A3 & A4 & A5 & _).
    rewrite (assign_close_two _ rest Hrest) in A3.
    rewrite Hempty in A4. cbn [app] in A4.
    cbv zeta. rewrite Hc. unfold wired. fields. split.
    + right. eexists. exact A3.
    + exists h, (closures (snd st)). repeat split; try assumption.
      intros h' Hne. rewrite A5 by exact Hne. apply Hempty.
  - cbn [fst]. unfold wired. rewrite Poff, Phandlers. split; [exact Hshape | exact Hempty].
Qed.

Lemma transmitStart_wired
    (resolution : number) (senv : StartEnv) (wenv : WaitEnv) (st : State) :
  completes senv = true ->
  wired st -> wired (fst (transmitStart resolution senv wenv st)).
Proof.
  intros Hc H.
  assert (Hg : wired (if _isStarted (fst st) then st
                      else fst (start resolution None None senv st))).
  { destruct (_isStarted (fst st)); [exact H | apply start_wired; assumption]. }
  destruct (transmitStart_frame resolution senv wenv st) as [[F1 F2] | [F1 F2]].
  - eapply wired_frame; [exact F1 | exact F2 | exact Hg].
  - eapply wired_frame; [exact F1 | exact F2 | apply deliver_wired; exact Hg].
Qed.

Lemma step_wired (resolution : number) (st : State) (c : Call) :
  completing c = true -> wired st -> wired (step resolution st c).
Proof.
  intros Hc H. destruct c as [channelId lens env | | senv wenv | | bufferMillis | evs];
    cbn [step completing] in *.
  - apply start_wired; assumption.
  - apply stop_wired. exact H.
  - apply transmitStart_wired; assumption.
  - eapply wired_frame; [ | | exact H]; repeat split.
  - eapply wired_frame; [ | | exact H]; repeat split.
  - apply deliver_wired. exact H.
Qed.

Lemma run_wired (resolution : number) (calls : list Call) (st : State) :
  forallb completing calls = true -> wired st -> wired (run resolution calls st).
Proof.
  unfold run. revert st.
  induction calls as [ | c calls IH]; intros st Hc H; cbn [fold_left].
  - exact H.
  - cbn [forallb] in Hc. apply andb_prop in Hc. destruct Hc as [Hc Hcs].
    apply IH; [exact Hcs | ]. apply step_wired; assumption.
Qed.

Lemma new_wired (resolution : number) (lens0 : option number) :
  wired (new resolution lens0, world0).
Proof. unfold wired, new. fields. split; [left; reflexivity | reflexivity]. Qed.

(** ** Theorems on lifecycles *)

(** X1: the segment length is fixed by the constructor. Whatever is called and
    whatever the source does, with whatever recording configuration, the check
    in [start()] never changes it: [segmentLength] is the constant of the
    settings. *)
Theorem segmentLength_is_constant
    (resolution : number) (lens0 : option number) (calls : list Call) :
  segmentLength (fst (run resolution calls (new resolution lens0, world0))) = resolution.
Proof. apply (run_sound resolution calls _ (new_sound resolution lens0)). Qed.

(** X2: after any calls and events, a buffer that has a lens is on channel 0. *)
Theorem lens_means_channel_0
    (resolution : number) (lens0 : option number) (calls : list Call) :
  let t := fst (run resolution calls (new resolution lens0, world0)) in
  lens t <> None -> channel t = of_Z 0.
Proof.
  intros t. apply (run_sound resolution calls _ (new_sound resolution lens0)).
Qed.

Lemma lens_means_channel_0_witness :
  let t := fst (run Example.resolution
                  [Start (Some (of_Z 3)) (Some (of_Z 1)) Example.env_ok]
                  (new Example.resolution None, world0)) in
  lens t = Some (of_Z 1) /\ channel t = of_Z 0.
Proof.
  intros t. split; [reflexivity | ].
  apply (lens_means_channel_0 Example.resolution None
           [Start (Some (of_Z 3)) (Some (of_Z 1)) Example.env_ok]).
  discriminate.
Defined.

(** X3: after any calls and events, also starts that fail, a buffer that says
    it is started holds a livestream and its "segment" listener is attached
    to that livestream. *)
Theorem started_means_subscribed
    (resolution : number) (lens0 : option number) (calls : list Call) :
  let st := run resolution calls (new resolution lens0, world0) in
  isStarted (fst st) = true ->
  exists h, livestream (fst st) = Some h
            /\ In SegmentHandler (listeners "segment" (emitters (snd st) h)).
Proof.
  intros st. apply (run_sound resolution calls _ (new_sound resolution lens0)).
Qed.

Lemma started_means_subscribed_witness :
  let st := run Example.resolution
              [Start None None Example.env_fail; Stop; Start None None Example.env_ok]
              (new Example.resolution None, world0) in
  exists h, livestream (fst st) = Some h
            /\ In SegmentHandler (listeners "segment" (emitters (snd st) h)).
Proof.
  intros st.
  exact (started_means_subscribed Example.resolution None
           [Start None None Example.env_fail; Stop; Start None None Example.env_ok]
           eq_refl).
Defined.

(** X4: as long as no [start()] fails between acquiring the livestream and
    starting it, whatever else is called and whatever the source does: every
    livestream carries at most one "segment" and at most one "close"
    listener of the buffer, and none at all while the buffer is not
    started. *)
Theorem listeners_never_pile_up
    (resolution : number) (lens0 : option number) (calls : list Call) (h : Handle) :
  forallb completing calls = true ->
  let st := run resolution calls (new resolution lens0, world0) in
  (List.length (listeners "segment" (emitters (snd st) h)) <= 1)%nat
  /\ (List.length (listeners "close" (emitters (snd st) h)) <= 1)%nat
  /\ (isStarted (fst st) = false -> emitters (snd st) h = []).
Proof.
  intros Hc st.
  destruct (run_wired resolution calls _ Hc (new_wired resolution lens0)) as [_ Hw].
  fold st in Hw. unfold isStarted.
  destruct (_isStarted (fst st)).
  - destruct Hw as (h0 & i & _ & _ & He & Hother).
    destruct (Nat.eq_dec h h0) as [-> | Hne].
    + rewrite He. cbn. repeat split; try lia; discriminate.
    + rewrite (Hother h Hne). cbn. repeat split; lia.
  - rewrite (Hw h). cbn. repeat split; lia.
Qed.

Lemma listeners_never_pile_up_witness :
  let st := run Example.resolution
              [Start None None Example.env_ok; Source [Close 0%nat];
               Start None None Example.env_ok; Start None None Example.env_ok]
              (new Example.resolution None, world0) in
  (List.length (listeners "segment" (emitters (snd st) 0%nat)) <= 1)%nat
  /\ (List.length (listeners "close" (emitters (snd st) 0%nat)) <= 1)%nat
  /\ (isStarted (fst st) = false -> emitters (snd st) 0%nat = []).
Proof.
  intros st.
  exact (listeners_never_pile_up Example.resolution None
           [Start None None Example.env_ok; Source [Close 0%nat];
            Start None None Example.env_ok; Start None None Example.env_ok]
           0%nat eq_refl).
Defined.

(** X5: under the same condition, an event of the source reaches the buffer
    once or not at all: a segment or a close of the livestream of a started
    buffer is handled exactly once, and one of any other livestream, or any
    while the buffer is not started, changes nothing. *)
Theorem events_are_handled_once
    (resolution : number) (lens0 : option number) (calls : list Call)
    (h : Handle) (segment : Buffer) :
  forallb completing calls = true ->
  let st := run resolution calls (new resolution lens0, world0) in
  dispatch st (Segment h segment)
  = (if isStarted (fst st) && livestream_is h (fst st)
     then segment_handler segment st else st)
  /\ dispatch st (Close h)
     = (if isStarted (fst st) && livestream_is h (fst st)
        then close_handler st else st).
Proof.
  intros Hc st.
  pose proof (run_wired resolution calls _ Hc (new_wired resolution lens0)) as Hw.
  fold st in Hw. split.
  - apply (dispatch_wired_eq st (Segment h segment) Hw).
  - apply (dispatch_wired_eq st (Close h) Hw).
Qed.

Lemma events_are_handled_once_witness :
  let st := run Example.resolution
              [SetLength (of_Z 500); Start None None Example.env_ok; Stop;
               Start None None Example.env_ok]
              (new Example.resolution None, world0) in
  _buffer (fst (dispatch st (Segment 0%nat Example.S1))) = [Example.S1]
  /\ _buffer (fst (dispatch st (Segment 1%nat Example.S1))) = [].
Proof.
  intros st.
  pose proof (events_are_handled_once Example.resolution None
                [SetLength (of_Z 500); Start None None Example.env_ok; Stop;
                 Start None None Example.env_ok] 0%nat Example.S1 eq_refl) as H0.
  pose proof (events_are_handled_once Example.resolution None
                [SetLength (of_Z 500); Start None None Example.env_ok; Stop;
                 Start None None Example.env_ok] 1%nat Example.S1 eq_refl) as H1.
  cbv zeta in H0, H1. fold st in H0, H1.
  rewrite (proj1 H0), (proj1 H1). split; reflexivity.
Defined.

(** X6: a "close" of its livestream stops a started buffer: under the same
    condition, after the event the buffer is not started, the store is empty,
    no listener of the buffer is left on any livestream, the livestream
    manager was asked once to stop the channel and lens in use, and the
    error was logged. *)
Theorem close_event_stops
    (resolution : number) (lens0 : option number) (calls : list Call) (h h' : Handle) :
  forallb completing calls = true ->
  let st := run resolution calls (new resolution lens0, world0) in
  isStarted (fst st) = true ->
  livestream (fst st) = Some h ->
  let st' := dispatch st (Close h) in
  isStarted (fst st') = false
  /\ _buffer (fst st') = []
  /\ emitters (snd st') h' = []
  /\ stopped (snd st') = stopped (snd st) ++ [(channel (fst st), lens (fst st))]
  /\ errors (snd st') = errors (snd st) ++ [close_message].
Proof.
  intros Hc st Hon Hl st'.
  pose proof (run_wired resolution calls _ Hc (new_wired resolution lens0)) as Hw.
  fold st in Hw. unfold isStarted in *.
  assert (Heq : st' = close_handler st).
  { subst st'. rewrite (dispatch_wired_eq st (Close h) Hw).
    unfold livestream_is. rewrite Hon, Hl, Nat.eqb_refl. reflexivity. }
  pose proof (close_handler_wired st Hw) as [_ Hw'].
  rewrite <- Heq in Hw'. clearbody st'. subst st'.
  destruct st as [t w]. unfold close_handler, stop in *. fields.
  rewrite Hon, Hl in *. fields.
  repeat split. apply Hw'.
Qed.

Lemma close_event_stops_witness :
  let st := run Example.resolution [Start None None Example.env_ok]
              (new Example.resolution None, world0) in
  let st' := dispatch st (Close 0%nat) in
  isStarted (fst st') = false /\ emitters (snd st') 0%nat = [].
Proof.
  intros st st'.
  pose proof (close_event_stops Example.resolution None [Start None None Example.env_ok]
                0%nat 0%nat eq_refl eq_refl eq_refl) as (H1 & _ & H3 & _).
  split; [exact H1 | exact H3].
Defined.

(** ** More on the rolling buffer *)

Lemma segment_handler_evicts
    (C : Z) (segment : Buffer) (t : ProtectTimeshiftBuffer) (w : World) :
  1 <= C < 2 ^ 53 ->
  Z.of_nat (List.length (_buffer t)) < 2 ^ 53 - 1 ->
  bufferSize t = of_Z C ->
  _isTransmitting t = false ->
  segment_handler segment (t, w)
  = (set_buffer (if C <? Z.of_nat (List.length (_buffer t)) + 1
                 then shift (_buffer t ++ [segment])%list
                 else (_buffer t ++ [segment])%list) t, w).
Proof.
  intros HC Hlen Hsize Htx.
  destruct t as [b ch st tx le sl bs ls eh]. fields. subst bs tx.
  unfold segment_handler. fields.
  rewrite leb_of_Z by lia.
  replace (C <=? 0) with false by (symmetry; apply Z.leb_gt; lia).
  fields. cbn [negb andb]. unfold gtb, of_nat.
  rewrite ltb_of_Z by (try rewrite length_app; cbn [List.length]; lia).
  rewrite length_app. cbn [List.length].
  replace (Z.of_nat (List.length b + 1)) with (Z.of_nat (List.length b) + 1) by lia.
  destruct (C <? Z.of_nat (List.length b) + 1); reflexivity.
Qed.

Lemma arrivals_any_store (C : Z) (segments : list Buffer) :
  1 <= C < 2 ^ 53 - 1 ->
  forall (t : ProtectTimeshiftBuffer) (w : World),
    Z.of_nat (List.length (_buffer t)) < 2 ^ 53 - 1 ->
    bufferSize t = of_Z C ->
    _isTransmitting t = false ->
    arrivals segments (t, w)
    = (set_buffer
         (lastn (Nat.max (List.length (_buffer t)) (Z.to_nat C)) (_buffer t ++ segments)) t,
       w).
Proof.
  intros HC. induction segments as [ | segment segments IH]; intros t w Hlen Hsize Htx.
  - cbn [arrivals fold_left]. rewrite app_nil_r, lastn_app_le by lia.
    destruct t; reflexivity.
  - unfold arrivals. cbn [fold_left].
    rewrite (segment_handler_evicts C) by (try assumption; lia).
    fold (arrivals segments).
    destruct (Z.ltb_spec C (Z.of_nat (List.length (_buffer t)) + 1)) as [Hfull | Hroom].
    + destruct (_buffer t) as [ | x b] eqn:Hb; [cbn [List.length] in Hfull; lia | ].
      cbn [List.length] in Hfull, Hlen.
      rewrite IH; fields; cbn [shift tl app].
      * f_equal. rewrite length_app. cbn [List.length].
        replace (Nat.max (List.length b + 1) (Z.to_nat C)) with (S (List.length b)) by lia.
        replace (Nat.max (S (List.length b)) (Z.to_nat C)) with (S (List.length b)) by lia.
        unfold lastn. rewrite <- app_assoc. cbn [app].
        set (l := (b ++ segment :: segments)%list).
        assert (Hl : (S (List.length b) <= List.length l)%nat)
          by (subst l; rewrite length_app; cbn [List.length]; lia).
        cbn [List.length].
        replace (S (List.length l) - S (List.length b))%nat
          with (S (List.length l - S (List.length b)))%nat by lia.
        reflexivity.
      * rewrite length_app. cbn [List.length]. lia.
      * exact Hsize.
      * exact Htx.
    + rewrite IH; fields.
      * f_equal. rewrite length_app. cbn [List.length].
        replace (Nat.max (List.length (_buffer t) + 1) (Z.to_nat C)) with (Z.to_nat C) by lia.
        replace (Nat.max (List.length (_buffer t)) (Z.to_nat C)) with (Z.to_nat C) by lia.
        rewrite <- app_assoc. reflexivity.
      * rewrite length_app. cbn [List.length]. lia.
      * exact Hsize.
      * exact Htx.
Qed.

(** X7: the store is never trimmed to a capacity that was lowered. With a
    capacity that is an integer [C >= 1] and a store of [n] segments, of any
    size, the store after arrivals while buffering is the last [max n C]
    segments of the old store followed by the arrivals: a store above the
    capacity keeps its size, each arrival evicting exactly one segment. *)
Theorem store_is_never_trimmed
    (C : Z) (segments : list Buffer) (t : ProtectTimeshiftBuffer) (w : World) :
  1 <= C < 2 ^ 53 - 1 ->
  Z.of_nat (List.length (_buffer t)) < 2 ^ 53 - 1 ->
  bufferSize t = of_Z C ->
  isTransmitting t = false ->
  _buffer (fst (arrivals segments (t, w)))
  = lastn (Nat.max (List.length (_buffer t)) (Z.to_nat C)) (_buffer t ++ segments).
Proof.
  intros HC Hlen Hsize Htx. rewrite (arrivals_any_store C) by assumption. reflexivity.
Qed.

Lemma store_is_never_trimmed_witness :
  let t := set_length (of_Z 100)
             (set_buffer [Example.S1; Example.S2; Example.S3] (new (of_Z 100) None)) in
  bufferSize t = of_Z 1
  /\ _buffer (fst (arrivals [Example.S4; Example.S5] (t, world0)))
     = [Example.S3; Example.S4; Example.S5].
Proof.
  intros t. split; [reflexivity | ].
  refine (store_is_never_trimmed 1 [Example.S4; Example.S5] t world0 _ _ eq_refl eq_refl).
  - lia.
  - cbn. lia.
Defined.

(** ** More on transmitting *)

Lemma segment_handler_transmitting
    (segment : Buffer) (t : ProtectTimeshiftBuffer) (w : World) :
  _isTransmitting t = true ->
  let st' := segment_handler segment (t, w) in
  _isTransmitting (fst st') = true
  /\ _buffer (fst st') = []
  /\ emitted (snd st') = emitted w ++ [Buffer_concat (_buffer t ++ [segment])].
Proof.
  intros Htx. cbv zeta. unfold segment_handler.
  destruct (leb (bufferSize (set_buffer (_buffer t ++ [segment]) t)) (of_Z 0));
    fields; rewrite Htx; cbn [negb andb]; fields; rewrite Htx;
    unfold transmit; fields; repeat split; exact Htx.
Qed.

Lemma Buffer_concat_one (b : Buffer) : Buffer_concat [b] = b.
Proof. unfold Buffer_concat. cbn [List.concat]. apply app_nil_r. Qed.

Lemma arrivals_transmitting
    (segments : list Buffer) (t : ProtectTimeshiftBuffer) (w : World) :
  _isTransmitting t = true ->
  let st' := arrivals segments (t, w) in
  emitted (snd st')
  = emitted w ++ match segments with
                 | [] => []
                 | first :: later => Buffer_concat (_buffer t ++ [first]) :: later
                 end
  /\ (segments <> [] -> _buffer (fst st') = [])
  /\ _isTransmitting (fst st') = true.
Proof.
  revert t w.
  induction segments as [ | segment segments IH]; intros t w Htx; cbv zeta.
  - cbn [arrivals fold_left fst snd]. rewrite app_nil_r.
    repeat split; [congruence | exact Htx].
  - change (arrivals (segment :: segments) (t, w))
      with (arrivals segments (segment_handler segment (t, w))).
    destruct (segment_handler_transmitting segment t w Htx) as (H1 & H2 & H3).
    destruct (segment_handler segment (t, w)) as [t1 w1]. fields.
    destruct (IH t1 w1 H1) as (I1 & I2 & I3).
    rewrite I1, H3, H2, <- app_assoc. cbn [app].
    repeat split.
    + f_equal. f_equal. destruct segments as [ | s later]; [reflexivity | ].
      rewrite Buffer_concat_one. reflexivity.
    + intros _. destruct segments as [ | s later].
      * cbn [arrivals fold_left fst]. exact H2.
      * apply I2. discriminate.
    + exact I3.
Qed.

(** X8: while the buffer is transmitting nothing is held back, merged or
    reordered. Of the segments that arrive, the first is emitted together
    with what the store held, every later one is emitted on its own and
    unchanged, in the order of arrival, and the store is empty after each. *)
Theorem transmitting_forwards_each_segment
    (segments : list Buffer) (t : ProtectTimeshiftBuffer) (w : World) :
  isTransmitting t = true ->
  let st' := arrivals segments (t, w) in
  emitted (snd st')
  = emitted w ++ match segments with
                 | [] => []
                 | first :: later => Buffer_concat (_buffer t ++ [first]) :: later
                 end
  /\ (segments <> [] -> _buffer (fst st') = [])
  /\ isTransmitting (fst st') = true.
Proof. apply arrivals_transmitting. Qed.

Lemma transmitting_forwards_each_segment_witness :
  let t := set_isTransmitting true (set_buffer [Example.S1] (new (of_Z 100) None)) in
  emitted (snd (arrivals [Example.S2; Example.S3] (t, world0)))
  = [Buffer_concat [Example.S1; Example.S2]; Example.S3].
Proof.
  intros t.
  exact (proj1 (transmitting_forwards_each_segment
                  [Example.S2; Example.S3] t world0 eq_refl)).
Defined.





Lemma segment_handler_capacity (segment : Buffer) (st : State) :
  leb (bufferSize (fst st)) (of_Z 0) = false ->
  bufferSize (fst (segment_handler segment st)) = bufferSize (fst st).
Proof.
  destruct st as [t w]. fields. intros Hpos. unfold segment_handler, transmit. fields.
  rewrite Hpos.
  repeat match goal with
         | |- context [if ?c then _ else _] => destruct c eqn:?
         end; fields; reflexivity.
Qed.

Lemma arrivals_capacity (segments : list Buffer) (st : State) :
  leb (bufferSize (fst st)) (of_Z 0) = false ->
  bufferSize (fst (arrivals segments st)) = bufferSize (fst st).
Proof.
  revert st. induction segments as [ | segment segments IH]; intros st Hpos.
  - reflexivity.
  - change (arrivals (segment :: segments) st)
      with (arrivals segments (segment_handler segment st)).
    pose proof (segment_handler_capacity segment st Hpos) as H.
    rewrite IH by (rewrite H; exact Hpos). exact H.
Qed.

(** X11: a transmission and back. On a buffer that transmits, with an empty
    store (as [transmitStart()] leaves it) and a capacity that is an integer
    [C >= 1]: the segments that arrive are emitted one by one and none is
    kept; after [transmitStop()] the segments that arrive are kept as before,
    the last [min N C] of them, and none is emitted. *)
Theorem transmission_and_back
    (C : Z) (during after : list Buffer) (t : ProtectTimeshiftBuffer) (w : World) :
  1 <= C < 2 ^ 53 - 1 ->
  bufferSize t = of_Z C ->
  isTransmitting t = true ->
  _buffer t = [] ->
  let st1 := arrivals during (t, w) in
  let st2 := arrivals after (fst (transmitStop st1)) in
  emitted (snd st2) = emitted w ++ during
  /\ _buffer (fst st2) = lastn (Z.to_nat C) after
  /\ isTransmitting (fst st2) = false.
Proof.
  intros HC Hsize Htx Hempty st1 st2. unfold isTransmitting in *.
  assert (Hpos : leb (bufferSize t) (of_Z 0) = false).
  { rewrite Hsize, leb_of_Z by lia. apply Z.leb_gt. lia. }
  destruct (arrivals_transmitting during t w Htx) as (E1 & E2 & E3).
  fold st1 in E1, E2, E3.
  pose proof (arrivals_capacity during (t, w) Hpos) as Hcap. fold st1 in Hcap.
  assert (Hstore : _buffer (fst st1) = []).
  { destruct during as [ | s later]; [exact Hempty | apply E2; discriminate]. }
  assert (Hemit : emitted (snd st1) = emitted w ++ during).
  { rewrite E1. f_equal. destruct during as [ | s later]; [reflexivity | ].
    rewrite Hempty. cbn [app]. rewrite Buffer_concat_one. reflexivity. }
  subst st2. unfold transmitStop. cbn [fst snd]. clearbody st1.
  destruct st1 as [t1 w1]. fields.
  rewrite (arrivals_buffering C) by (try assumption; fields; try congruence;
                                     rewrite Hstore; cbn [List.length]; lia).
  fields. rewrite Hstore. cbn [app]. repeat split. exact Hemit.
Qed.

Lemma transmission_and_back_witness :
  let t := set_isTransmitting true (set_length (of_Z 200) (new (of_Z 100) None)) in
  let st1 := arrivals [Example.S1; Example.S2] (t, world0) in
  let st2 := arrivals [Example.S3; Example.S4; Example.S5] (fst (transmitStop st1)) in
  emitted (snd st2) = [Example.S1; Example.S2]
  /\ _buffer (fst st2) = [Example.S4; Example.S5].
Proof.
  intros t st1 st2.
  assert (HC : 1 <= 2 < 2 ^ 53 - 1) by lia.
  pose proof (transmission_and_back 2 [Example.S1; Example.S2]
                [Example.S3; Example.S4; Example.S5] t world0 HC eq_refl eq_refl eq_refl)
    as (H1 & H2 & _).
  split; [exact H1 | exact H2].
Defined.

(** ** More on reading the buffer *)

(** X12: a duration that covers the whole store, or more, gives the whole
    buffer. For a segment length that is an integer [s] and a duration of [k]
    whole segments (below 2^53 ms), [k] at least the number of stored
    segments, [getLast] returns what [get buffer()] returns. *)
Theorem getLast_of_everything (k s : Z) (st : State) :
  1 <= s < 2 ^ 53 -> k * s < 2 ^ 53 ->
  segmentLength (fst st) = of_Z s ->
  Z.of_nat (List.length (_buffer (fst st))) <= k ->
  getLast (of_Z (k * s)) st = buffer st.
Proof.
  unfold segmentLength. intros Hs Hm Hlen Hk.
  assert (Hk' : 0 <= k < 2 ^ 53) by nia.
  unfold getLast. rewrite Hlen.
  destruct (div_mul_of_Z k s Hs ltac:(lia)) as [Hdiv _]. rewrite Hdiv.
  unfold geb, of_nat. rewrite leb_of_Z by lia.
  replace (Z.of_nat (List.length (_buffer (fst st))) <=? k) with true
    by (symmetry; apply Z.leb_le; exact Hk).
  reflexivity.
Qed.

Lemma getLast_of_everything_witness :
  getLast (of_Z (5 * 100)) Example.after_seven = buffer Example.after_seven.
Proof.
  refine (getLast_of_everything 5 100 Example.after_seven _ _ _ _).
  - lia.
  - lia.
  - vm_compute. reflexivity.
  - apply Z.leb_le. vm_compute. reflexivity.
Defined.

(** ** More on stopping and starting *)

(** X13: [stop()] twice is [stop()] once: the second call changes nothing, and
    in particular asks the livestream manager nothing and detaches nothing. *)
Theorem stop_is_idempotent (st : State) :
  fst (stop (fst (stop st))) = fst (stop st).
Proof. destruct st as [t w]. unfold stop. fields. reflexivity. Qed.

(** ** More on the capacity *)

Lemma div_nonpositive (m s : Z) :
  1 <= s < 2 ^ 53 -> - 2 ^ 53 < m <= 0 ->
  leb (div (of_Z m) (of_Z s)) (of_Z 0) = true.
Proof.
  intros Hs Hm.
  rewrite (of_Z_integer s), (of_Z_integer m) by lia.
  destruct s as [ | ps | ps]; try lia.
  destruct m as [ | p | p]; try lia.
  - reflexivity.
  - destruct (div_integer_any true p ps ltac:(lia) ltac:(lia)) as (mq & c & Hdiv & _).
    rewrite Hdiv. reflexivity.
Qed.

(** X14: a length that is zero or negative leaves a capacity of one segment.
    For a segment length that is an integer [1 <= s < 2^53] and a length set
    to an integer [m <= 0] (above -2^53), a multiple of [s] or not, the first
    arrival raises the capacity to 1: while buffering, the store holds the
    most recent arrival alone, and the length getter returns [s]. *)
Theorem nonpositive_length_keeps_one
    (m s : Z) (segment : Buffer) (later : list Buffer)
    (t : ProtectTimeshiftBuffer) (w : World) :
  1 <= s < 2 ^ 53 -> - 2 ^ 53 < m <= 0 ->
  segmentLength t = of_Z s ->
  isTransmitting t = false ->
  _buffer t = [] ->
  let st' := arrivals (segment :: later) (set_length (of_Z m) t, w) in
  _buffer (fst st') = lastn 1 (segment :: later)
  /\ bufferSize (fst st') = of_Z 1
  /\ get_length (fst st') = of_Z s.
Proof.
  intros Hs Hm Hlen Htx Hempty st'. unfold segmentLength, isTransmitting in *.
  pose proof (div_nonpositive m s Hs Hm) as Hle.
  assert (Hone : mul (of_Z 1) (of_Z s) = of_Z s).
  { destruct (div_mul_of_Z 1 s Hs ltac:(lia)) as [_ H].
    rewrite H. f_equal. lia. }
  subst st'.
  change (arrivals (segment :: later) (set_length (of_Z m) t, w))
    with (arrivals later (segment_handler segment (set_length (of_Z m) t, w))).
  assert (Hfirst : segment_handler segment (set_length (of_Z m) t, w)
                   = (set_buffer [segment] (set_bufferSize (of_Z 1) t), w)).
  { destruct t as [b ch st tx le sl bs ls eh]. fields. subst b tx sl.
    unfold segment_handler, set_length. fields. rewrite Hle. fields. reflexivity. }
  rewrite Hfirst.
  rewrite (arrivals_buffering 1) by (fields; try reflexivity; try assumption; cbn; lia).
  unfold get_length. fields. rewrite Hlen.
  split; [reflexivity | ]. split; [reflexivity | exact Hone].
Qed.

Lemma nonpositive_length_keeps_one_witness :
  let t := new (of_Z 100) None in
  let st' := arrivals [Example.S1; Example.S2] (set_length (of_Z (-250)) t, world0) in
  (1 <= 100 < 2 ^ 53 /\ - 2 ^ 53 < -250 <= 0)
  /\ _buffer (fst st') = [Example.S2]
  /\ bufferSize (fst st') = of_Z 1
  /\ get_length (fst st') = of_Z 100.
Proof.
  intros t st'.
  assert (Hs : 1 <= 100 < 2 ^ 53) by lia.
  assert (Hm : - 2 ^ 53 < -250 <= 0) by lia.
  split; [split; [exact Hs | exact Hm] | ].
  exact (nonpositive_length_keeps_one (-250) 100 Example.S1 [Example.S2] t world0
           Hs Hm eq_refl eq_refl eq_refl).
Defined.

(** ** More on starting *)

(** X15: [start()] when no livestream can be acquired. It returns false with
    the buffer not started, no livestream held and the store empty, so that
    [get buffer()] and [getLast] return null; it attaches no listener (the
    listeners are those left by the [stop()] it began with, if the buffer was
    started) and asks the livestream manager to start nothing. *)
Theorem start_without_livestream
    (resolution : number) (channelId lens : option number) (env : StartEnv)
    (st : State) (duration : number) :
  acquired env = None ->
  let r := start resolution channelId lens env st in
  snd r = false
  /\ isStarted (fst (fst r)) = false
  /\ livestream (fst (fst r)) = None
  /\ _buffer (fst (fst r)) = []
  /\ buffer (fst r) = None
  /\ getLast duration (fst r) = None
  /\ emitters (snd (fst r))
     = emitters (snd (if isStarted (fst st) then fst (stop st) else st))
  /\ started (snd (fst r)) = started (snd st).
Proof.
  intros Hacq r. subst r. rewrite start_eq, Hacq. cbn [fst snd].
  unfold start_prepared, isStarted. rewrite Hacq.
  assert (Hnull : forall st0 : State,
             livestream (fst st0) = None -> _buffer (fst st0) = [] ->
             buffer st0 = None /\ getLast duration st0 = None).
  { intros st0 _ Hb. split; [apply buffer_None | apply getLast_None]; right; exact Hb. }
  assert (Hval : forall t0, _isStarted (start_validated resolution env t0) = _isStarted t0).
  { intros t0. unfold start_validated.
    repeat match goal with
           | |- context [match ?c with _ => _ end] => destruct c
           end; reflexivity. }
  destruct st as [t w]. fields.
  destruct (_isStarted t) eqn:Hon.
  - unfold stop. fields. rewrite Hon, Hval. fields.
    split; [reflexivity | ]. split; [reflexivity | ]. split; [reflexivity | ].
    split; [reflexivity | ].
    split; [apply Hnull; reflexivity | ]. split; [apply Hnull; reflexivity | ].
    split; [reflexivity | ].
    destruct (livestream t); reflexivity.
  - fields. rewrite Hval.
    split; [reflexivity | ]. split; [exact Hon | ]. split; [reflexivity | ].
    split; [reflexivity | ].
    split; [apply Hnull; reflexivity | ]. split; [apply Hnull; reflexivity | ].
    split; reflexivity.
Qed.

Lemma start_without_livestream_witness :
  let env := {| fragmentLength := None; acquired := None; while_starting := [];
                start_result := true |} in
  let r := start Example.resolution None None env Example.after_seven in
  acquired env = None
  /\ snd r = false
  /\ isStarted (fst (fst r)) = false
  /\ buffer (fst r) = None
  /\ emitters (snd (fst r)) 0%nat = [].
Proof.
  intros env r.
  pose proof (start_without_livestream Example.resolution None None env
                Example.after_seven (of_Z 100) eq_refl)
    as (H1 & H2 & _ & _ & H5 & _ & H7 & _).
  split; [reflexivity | ].
  split; [exact H1 | ]. split; [exact H2 | ]. split; [exact H5 | ].
  fold r in H7. rewrite H7. vm_compute. reflexivity.
Defined.
